(** * Collaboration and replay consumers (collab/consumers.py)

    A shallow embedding of [CollaborationConsumer] and [ReplayConsumer]:
    the room-snapshot reconciler [save_room], the event handlers, the
    group broadcast with echo suppression, admission on [connect], and the
    replay playback loop.  Database tables and the channel layer are
    explicit state; every handler is a function on that state. *)

From Stdlib Require Import ZArith List Bool Sorted.
From stdpp Require Import base option list gmap strings sorting.

Local Open Scope string_scope.
Local Open Scope list_scope.
Local Open Scope Z_scope.

Set Warnings "-register-all,-notation-for-abbreviation,-clear-no-such-hyp".

(** ** Data model *)

(** JSON values as the consumers receive and send them. *)
Inductive json : Type :=
| JNull
| JBool (b : bool)
| JInt (z : Z)
| JStr (s : string)
| JList (l : list json)
| JDict (d : gmap string json).

(** A Python [dict] with string keys. *)
Notation dict := (gmap string json).

(** Python truthiness of a JSON value ([if time], [if not ids]). *)
Definition truthy (v : json) : bool :=
  match v with
  | JNull => false
  | JBool b => b
  | JInt z => negb (z =? 0)%Z
  | JStr s => negb (String.eqb s "")
  | JList l => match l with [] => false | _ :: _ => true end
  | JDict d => match map_to_list d with [] => false | _ :: _ => true end
  end.

(** A canvas element, seen through the three keys [save_room] reads:
    [e['id']], [e['version']] and [e.get('isDeleted', False)]; a missing
    [isDeleted] key is [None]. *)
Record Element : Type := mkElement {
  eid : string;
  version : Z;
  isDeleted : option bool
}.

(** The [ExcalidrawRoom] table: primary key [room_name], one element
    collection per room.  [dump_content] and the model's [elements]
    property (both outside this file's sources) encode and decode the
    collection; the table is kept at the level of the decoded collection. *)
Notation RoomTable := (gmap string (list Element)).

(** Modelled from the spec: the element collection of a Room row that
    [get_or_create] has just inserted (the model's field default,
    collab/models.py) -- "freshly created (no prior snapshot)". *)
Definition default_elements : list Element := [].

(** ** Room store operations *)

Module RoomStore.

(** [ExcalidrawRoom.objects.get_or_create(room_name=...)]: the row and
    whether it was created; a missing row is inserted with defaults. *)
Definition get_or_create_room (room_name : string) (rooms : RoomTable)
  : list Element * bool * RoomTable :=
  match rooms !! room_name with
  | Some old => (old, false, rooms)
  | None => (default_elements, true, <[room_name := default_elements]> rooms)
  end.

(** [ExcalidrawRoom.objects.update_or_create(room_name=...,
    defaults={'_elements': elements})]. *)
Definition upsert_room (room_name : string) (elements : list Element)
           (rooms : RoomTable) : RoomTable :=
  <[room_name := elements]> rooms.

End RoomStore.
Import RoomStore.

(** ** The reconciler: [CollaborationConsumer.save_room] *)

(** [{e['id']: e['version'] for e in old_room.elements}]: a later element
    with the same id overwrites an earlier one. *)
Definition old_room_versions (elements : list Element) : gmap string Z :=
  foldl (fun m e => <[eid e := version e]> m) ∅ elements.

(** [not e.get('isDeleted', False)]. *)
Definition not_deleted (e : Element) : bool :=
  negb (default false (isDeleted e)).

(** The body of [for e in elements], threading [differences_detected];
    [None] is the early [return] on an element older than the stored one. *)
Fixpoint compare_versions (versions : gmap string Z) (elements : list Element)
         (differences_detected : bool) : option bool :=
  match elements with
  | [] => Some differences_detected
  | e :: rest =>
      let old_version := default (-1) (versions !! eid e) in
      if (old_version >? version e)%Z then None
      else compare_versions versions rest
             (differences_detected || (old_version <? version e)%Z)
  end.

(** [save_room(room_name, elements)].  The result is the table afterwards
    and whether the update was issued (the ["room %s saved"] debug line). *)
Definition save_room (room_name : string) (elements : list Element)
           (rooms : RoomTable) : RoomTable * bool :=
  let '(old_room, created, rooms) := get_or_create_room room_name rooms in
  let versions := old_room_versions old_room in
  let elements := List.filter not_deleted elements in
  let differences_detected :=
    if negb created then compare_versions versions elements false
    else Some false in
  match differences_detected with
  | None => (rooms, false)
  | Some false => (rooms, false)
  | Some true => (upsert_room room_name elements rooms, true)
  end.

(** The snapshot stored for a room, if the row exists. *)
Definition snapshot (rooms : RoomTable) (room_name : string)
  : option (list Element) := rooms !! room_name.

(** The version stored for an element id in a room's snapshot. *)
Definition persisted_version (rooms : RoomTable) (room_name i : string)
  : option Z :=
  els ← snapshot rooms room_name; old_room_versions els !! i.

(** The element ids of a collection. *)
Definition ids_of (elements : list Element) : gset string :=
  list_to_set (eid <$> elements).

(** The element ids stored for a room (none when the row is missing). *)
Definition persisted_ids (rooms : RoomTable) (room_name : string)
  : gset string :=
  from_option ids_of ∅ (snapshot rooms room_name).

(** A sequence of [save_room] calls on one room: the version stored for
    [i] before the first call and after each call. *)
Fixpoint version_history (room_name i : string) (calls : list (list Element))
         (rooms : RoomTable) : list (option Z) :=
  persisted_version rooms room_name i ::
  match calls with
  | [] => []
  | elements :: rest =>
      version_history room_name i rest (save_room room_name elements rooms).1
  end.

(** Version monotonicity as a property of a history: wherever the id is
    present at two points, the later version is not smaller. *)
Definition versions_nondecreasing (h : list (option Z)) : Prop :=
  forall j k v v', (j < k)%nat ->
    h !! j = Some (Some v) -> h !! k = Some (Some v') -> v <= v'.

(** Tables the collaboration code can produce: rows come into being through
    [get_or_create] (on [connect] and in [save_room]) and are rewritten only
    by [save_room]. *)
Inductive reachable : RoomTable -> Prop :=
| reach_empty : reachable ∅
| reach_get_or_create room_name rooms :
    reachable rooms -> reachable (get_or_create_room room_name rooms).2
| reach_save_room room_name elements rooms :
    reachable rooms -> reachable (save_room room_name elements rooms).1.

(** No stored snapshot holds a tombstoned element. *)
Definition no_tombstones (rooms : RoomTable) : Prop :=
  forall room_name els e,
    rooms !! room_name = Some els -> e ∈ els -> not_deleted e = true.

(** ** Log records, channel layer and transport *)

(** [created_at]: what [parse_datetime] returns on the client's string, or
    the server's [now()]. *)
Inductive Timestamp : Type :=
| ParsedTime (raw : string)
| ServerTime (t : Z).

(** A row of the [ExcalidrawLogRecord] table. *)
Record LogRecord : Type := mkLogRecord {
  rec_id : Z;
  rec_room_name : string;
  rec_event_type : string;
  rec_user_pseudonym : string;
  rec_created_at : Timestamp;
  rec_content : json
}.

(** A log record before it is saved (no primary key yet). *)
Record NewRecord : Type := mkNewRecord {
  new_room_name : string;
  new_event_type : string;
  new_user_pseudonym : string;
  new_created_at : Timestamp;
  new_content : json
}.

(** What a consumer does on its websocket. *)
Inductive Frame : Type :=
| Accept
| SendJson (content : dict)
| Close (code : Z).

(** The message handed to the channel layer by [send_event]:
    [{'type': 'notify_client', 'notification': ..., 'sender': ...}]. *)
Record Envelope : Type := mkEnvelope {
  env_type : string;
  notification : dict;
  sender : string
}.

(** Everything the consumers share: the two tables, the channel layer's
    groups, the messages handed to the channel layer so far, what each
    connection (by channel name) did on its websocket, and the clock. *)
Record World : Type := mkWorld {
  rooms : RoomTable;
  log_records : list LogRecord;
  last_record_id : Z;
  groups : gmap string (gset string);
  group_sends : list (string * Envelope);
  transport : gmap string (list Frame);
  clock : Z
}.

Definition set_rooms (r : RoomTable) (w : World) : World :=
  mkWorld r (log_records w) (last_record_id w) (groups w) (group_sends w)
          (transport w) (clock w).
Definition set_log (l : list LogRecord) (n : Z) (w : World) : World :=
  mkWorld (rooms w) l n (groups w) (group_sends w) (transport w) (clock w).
Definition set_groups (g : gmap string (gset string)) (w : World) : World :=
  mkWorld (rooms w) (log_records w) (last_record_id w) g (group_sends w)
          (transport w) (clock w).
Definition set_group_sends (m : list (string * Envelope)) (w : World) : World :=
  mkWorld (rooms w) (log_records w) (last_record_id w) (groups w) m
          (transport w) (clock w).
Definition set_transport (t : gmap string (list Frame)) (w : World) : World :=
  mkWorld (rooms w) (log_records w) (last_record_id w) (groups w)
          (group_sends w) t (clock w).

(** The frames of one connection, oldest first. *)
Definition frames (w : World) (channel : string) : list Frame :=
  default [] (transport w !! channel).

(** The members of a channel-layer group. *)
Definition members (w : World) (group : string) : gset string :=
  default ∅ (groups w !! group).

(** One consumer instance ([self]): its channel, the room of its URL route
    and, once admitted, its pseudonym ([None]: attribute not set). *)
Record Consumer : Type := mkConsumer {
  channel_name : string;
  self_room_name : string;
  user_room_id : option string
}.

Module LogStore.

(** [record.save()] / [objects.create]: the next primary key is assigned. *)
Definition create_record (r : NewRecord) (w : World) : World :=
  let pk := (last_record_id w + 1)%Z in
  set_log (log_records w ++
             [mkLogRecord pk (new_room_name r) (new_event_type r)
                (new_user_pseudonym r) (new_created_at r) (new_content r)])
          pk w.

(** [objects.bulk_create(records)]: the rows are inserted in list order. *)
Definition bulk_create_records (records : list NewRecord) (w : World)
  : World :=
  foldl (fun w r => create_record r w) w records.

(** [objects.get(pk=log_id)]; [None] is [DoesNotExist]. *)
Definition get_log_record (table : list LogRecord) (pk : Z)
  : option LogRecord :=
  List.find (fun r => (rec_id r =? pk)%Z) table.

(** [objects.filter(room_name=...).order_by('id').values_list('id')],
    first column. *)
Definition get_log_record_ids_for_room (table : list LogRecord)
           (room_name : string) : list Z :=
  merge_sort Z.le
    (rec_id <$>
       List.filter (fun r => String.eqb (rec_room_name r) room_name) table).

End LogStore.
Import LogStore.

Module Transport.

(** [self.send_json(content)] on the connection of [channel]. *)
Definition send_json (channel : string) (content : dict) (w : World)
  : World :=
  set_transport
    (<[channel := frames w channel ++ [SendJson content]]> (transport w)) w.

(** Modelled from the spec: [super().connect()] of the base consumer
    (draw/utils/django_loaded.py) accepts the websocket. *)
Definition super_connect (channel : string) (w : World) : World :=
  set_transport (<[channel := frames w channel ++ [Accept]]> (transport w)) w.

(** Modelled from the spec: [super().disconnect(code)] of the base
    consumer (draw/utils/django_loaded.py) is the transport-level
    teardown, "close with the distinguished code". *)
Definition super_disconnect (channel : string) (code : Z) (w : World)
  : World :=
  set_transport
    (<[channel := frames w channel ++ [Close code]]> (transport w)) w.

End Transport.
Import Transport.

(** ** [CollaborationConsumer] *)

Definition channel_prefix : string := "draw_room_".

(** The [group_name] property. *)
Definition group_name (self : Consumer) : string :=
  channel_prefix +:+ self_room_name self.

(** [notify_client(event)], run by the consumer whose channel is
    [channel_name self]: the sender's own events are not forwarded. *)
Definition notify_client (self_channel : string) (event : Envelope)
           (w : World) : World :=
  if decide (sender event <> self_channel)
  then send_json self_channel (notification event) w
  else w.

Module ChannelLayer.

(** Modelled from the spec: the channel layer (channels package)
    "multicasts to every session currently registered in the room's
    group"; a delivered message of type [notify_client] runs the
    receiving consumer's [notify_client]. *)
Definition group_send (group : string) (event : Envelope) (w : World)
  : World :=
  foldl (fun w ch => notify_client ch event w)
        (set_group_sends (group_sends w ++ [(group, event)]) w)
        (elements (members w group)).

Definition group_add (group channel : string) (w : World) : World :=
  set_groups (<[group := {[channel]} ∪ members w group]> (groups w)) w.

Definition group_discard (group channel : string) (w : World) : World :=
  set_groups (<[group := members w group ∖ {[channel]}]> (groups w)) w.

End ChannelLayer.
Import ChannelLayer.

(** [send_event(eventtype, **event_args)]. *)
Definition send_event (self : Consumer) (eventtype : string)
           (event_args : dict) (w : World) : World :=
  group_send (group_name self)
    (mkEnvelope "notify_client"
       (event_args ∪ {[ "eventtype" := JStr eventtype ]})
       (channel_name self))
    w.

(** [elements_changed(room_name, eventtype, elements, **kwargs)]; [None] is
    a raised exception (the pseudonym attribute is missing). *)
Definition elements_changed (self : Consumer) (room_name eventtype : string)
           (elems : json) (kwargs : dict) (w : World) : option World :=
  uid ← user_room_id self;
  let record :=
    mkNewRecord room_name eventtype uid (ServerTime (clock w)) elems in
  Some (create_record record
          (send_event self eventtype (<["elements" := elems]> kwargs) w)).

(** [full_sync(room_name, eventtype, elements, **kwargs)]: the call to
    [save_room] is commented out in the source. *)
Definition full_sync (self : Consumer) (room_name eventtype : string)
           (elems : json) (kwargs : dict) (w : World) : option World :=
  elements_changed self room_name eventtype elems kwargs w.

(** The body of [for change in changes] in [collaborator_change]:
    [del change['username']] ([None]: [KeyError]), [change.pop('time',
    None)], the timestamp, and the record built around the stripped dict. *)
Definition strip_change (room_name eventtype uid : string) (now : Z)
           (change : dict) : option NewRecord :=
  _ ← change !! "username";
  let change1 := delete "username" change in
  let time := default JNull (change1 !! "time") in
  let change2 := delete "time" change1 in
  created_at ←
    (if truthy time
     then match time with JStr raw => Some (ParsedTime raw) | _ => None end
     else Some (ServerTime now));
  Some (mkNewRecord room_name eventtype uid created_at (JDict change2)).

(** [collaborator_change(room_name, eventtype, changes, **kwargs)].  The
    copy of [changes[-1]] is taken before the loop edits the dicts. *)
Definition collaborator_change (self : Consumer) (room_name eventtype : string)
           (changes : list dict) (w : World) : option World :=
  collaborator_to_send ← last changes;
  uid ← user_room_id self;
  records ← mapM (strip_change room_name eventtype uid (clock w)) changes;
  let collaborator_to_send :=
    <["userRoomId" := JStr uid]> collaborator_to_send in
  Some (send_event self eventtype
          {[ "changes" := JList [JDict collaborator_to_send] ]}
          (bulk_create_records records w)).

(** [disconnect(code)]: peers are told, and the channel leaves the group,
    unless the code is 3000; [None] is a raised exception (the pseudonym
    attribute is missing). *)
Definition disconnect (self : Consumer) (code : Z) (w : World)
  : option World :=
  w ← (if decide (code <> 3000)
       then
         uid ← user_room_id self;
         Some (group_discard (group_name self) (channel_name self)
                 (send_event self "collaborator_left"
                    {[ "collaborator" :=
                         JDict {[ "userRoomId" := JStr uid ]} ]} w))
       else Some w);
  Some (super_disconnect (channel_name self) code w).

(** [connect()].  The settings flag, the two answers of the authorization
    helpers and the pseudonym computed for an admitted user are inputs. *)
Definition connect (ALLOW_ANONYMOUS_VISITS authenticated authorized : bool)
           (pseudonym : string) (self : Consumer) (w : World)
  : option (Consumer * World) :=
  let w := set_rooms (get_or_create_room (self_room_name self) (rooms w)).2 w in
  if negb ALLOW_ANONYMOUS_VISITS && negb authenticated && negb authorized
  then
    let w := super_connect (channel_name self) w in
    let w := send_json (channel_name self)
               {[ "eventtype" := JStr "login_required" ]} w in
    w ← disconnect self 3000 w;
    Some (self, w)
  else
    let self :=
      mkConsumer (channel_name self) (self_room_name self) (Some pseudonym) in
    let w := group_add (group_name self) (channel_name self) w in
    Some (self, super_connect (channel_name self) w).

(** ** [ReplayConsumer] *)

(** One replay session: its room, the ids still to be replayed, the
    [defaultdict] of display names with the names the session's [Faker]
    will hand out and how many were drawn, and its two effects so far: the
    primary keys passed to [get_log_record] and the messages passed to
    [send_json]. *)
Record ReplayConsumer : Type := mkReplayConsumer {
  replay_room_name : string;
  log_record_ids : list Z;
  encountered_user_pseudonyms : gmap string string;
  faker_name : nat -> string;
  names_drawn : nat;
  fetched : list Z;
  sent : list dict
}.

(** How a run of the playback loop ends: the final [pause_replay] was
    sent, a step raised, or steps are still scheduled when the fuel is
    used up. *)
Inductive Outcome : Type :=
| Finished (s : ReplayConsumer)
| Raised
| Scheduled (s : ReplayConsumer).

Module Replay.

(** [self.send_json(content)]. *)
Definition send_json (content : dict) (s : ReplayConsumer)
  : ReplayConsumer :=
  mkReplayConsumer (replay_room_name s) (log_record_ids s)
    (encountered_user_pseudonyms s) (faker_name s) (names_drawn s)
    (fetched s) (sent s ++ [content]).

(** [self.encountered_user_pseudonyms[pseudonym]]: a missing key draws
    the next name and stores it. *)
Definition display_name (pseudonym : string) (s : ReplayConsumer)
  : string * ReplayConsumer :=
  match encountered_user_pseudonyms s !! pseudonym with
  | Some name => (name, s)
  | None =>
      let name := faker_name s (names_drawn s) in
      (name,
       mkReplayConsumer (replay_room_name s) (log_record_ids s)
         (<[pseudonym := name]> (encountered_user_pseudonyms s))
         (faker_name s) (S (names_drawn s)) (fetched s) (sent s))
  end.

(** [init_replay()]: the id list is loaded and [reset_scene] is sent. *)
Definition init_replay (table : list LogRecord) (s : ReplayConsumer)
  : ReplayConsumer :=
  send_json {[ "eventtype" := JStr "reset_scene" ]}
    (mkReplayConsumer (replay_room_name s)
       (get_log_record_ids_for_room table (replay_room_name s))
       (encountered_user_pseudonyms s) (faker_name s) (names_drawn s)
       (fetched s) (sent s)).

(** [send_next_event()]; [None] is a raised exception ([pop] on an empty
    list, [DoesNotExist], or a content that is no mapping). *)
Definition send_next_event (table : list LogRecord) (s : ReplayConsumer)
  : option ReplayConsumer :=
  match log_record_ids s with
  | [] => None
  | log_id :: rest =>
      let s := mkReplayConsumer (replay_room_name s) rest
                 (encountered_user_pseudonyms s) (faker_name s)
                 (names_drawn s) (fetched s ++ [log_id]) (sent s) in
      record ← get_log_record table log_id;
      if bool_decide (rec_event_type record
                        ∈ ["full_sync"; "elements_changed"])
      then Some (send_json {[ "eventtype" := JStr (rec_event_type record);
                              "elements" := rec_content record ]} s)
      else if bool_decide (rec_event_type record = "collaborator_change")
      then
        match rec_content record with
        | JDict content =>
            let '(name, s) := display_name (rec_user_pseudonym record) s in
            Some (send_json
                    {[ "eventtype" := JStr "collaborator_change";
                       "changes" :=
                         JList [JDict
                           (<["userRoomId" :=
                                JStr (rec_user_pseudonym record)]>
                              (<["username" := JStr name]> content))] ]} s)
        | _ => None
        end
      else Some s
  end.

(** [wait_then_send()] and the tasks it schedules after itself, one per
    unit of fuel (the pause between two steps is not modelled). *)
Fixpoint wait_then_send (fuel : nat) (table : list LogRecord)
         (s : ReplayConsumer) : Outcome :=
  match fuel with
  | O => Scheduled s
  | S fuel =>
      match log_record_ids s with
      | _ :: _ =>
          match send_next_event table s with
          | Some s => wait_then_send fuel table s
          | None => Raised
          end
      | [] => Finished (send_json {[ "eventtype" := JStr "pause_replay" ]} s)
      end
  end.

End Replay.

(** A record the replay turns into exactly one message: its type is one of
    the three the collaboration handlers log, and a collaborator change
    holds a dict. *)
Definition replayable (r : LogRecord) : Prop :=
  rec_event_type r ∈ ["full_sync"; "elements_changed"] \/
  (rec_event_type r = "collaborator_change" /\
   exists d, rec_content r = JDict d).

(** The message [msg] is the replay of the record with primary key [pk]. *)
Definition replays (table : list LogRecord) (pk : Z) (msg : dict) : Prop :=
  exists r,
    get_log_record table pk = Some r /\
    msg !! "eventtype" = Some (JStr (rec_event_type r)) /\
    (rec_event_type r ∈ ["full_sync"; "elements_changed"] ->
     msg !! "elements" = Some (rec_content r)) /\
    (rec_event_type r = "collaborator_change" ->
     exists d name,
       rec_content r = JDict d /\
       msg !! "changes" =
         Some (JList [JDict (<["userRoomId" := JStr (rec_user_pseudonym r)]>
                               (<["username" := JStr name]> d))])).

(** The same table with other [created_at] values. *)
Definition retime (f : LogRecord -> Timestamp) (table : list LogRecord)
  : list LogRecord :=
  (fun r => mkLogRecord (rec_id r) (rec_room_name r) (rec_event_type r)
              (rec_user_pseudonym r) (f r) (rec_content r)) <$> table.

(** Sample elements and tables used in the examples below. *)
Module Samples.
Definition A5 : Element := mkElement "A" 5 None.
Definition A4 : Element := mkElement "A" 4 None.
Definition A2 : Element := mkElement "A" 2 (Some false).
Definition A1 : Element := mkElement "A" 1 None.
Definition B1 : Element := mkElement "B" 1 None.
Definition B10 : Element := mkElement "B" 10 None.
Definition C1_deleted : Element := mkElement "C" 1 (Some true).
(** A room whose row exists with an empty snapshot. *)
Definition empty_room : RoomTable := {[ "room" := [] ]}.
(** A room whose snapshot is [{id: A, version: 5}]. *)
Definition room_A5 : RoomTable := {[ "room" := [A5] ]}.
(** Two admitted sessions of the same room. *)
Definition alice : Consumer :=
  mkConsumer "chan.alice" "room" (Some "pseudonym-alice").
Definition bob : Consumer :=
  mkConsumer "chan.bob" "room" (Some "pseudonym-bob").
(** A visitor whose [connect] has not run yet. *)
Definition visitor : Consumer := mkConsumer "chan.visitor" "room" None.
(** A world in which alice and bob are registered in the room's group. *)
Definition world0 : World :=
  mkWorld room_A5 [] 0
          {[ "draw_room_room" := {[ "chan.alice"; "chan.bob" ]} ]}
          [] ∅ 1000.
(** A pointer update as a client sends it. *)
Definition change_bob : dict :=
  {[ "username" := JStr "Bob"; "pointer" := JInt 7 ]}.
(** Log rows 1, 2, 3 of one room, inserted in that order, whose
    [created_at] values run backwards, and a row of another room. *)
Definition log123 : list LogRecord :=
  [ mkLogRecord 1 "room" "elements_changed" "pseudonym-alice"
      (ServerTime 30) (JList [JInt 10]);
    mkLogRecord 2 "room" "collaborator_change" "pseudonym-bob"
      (ParsedTime "2022-02-28T10:21:00") (JDict {[ "pointer" := JInt 7 ]});
    mkLogRecord 4 "other" "full_sync" "pseudonym-eve"
      (ServerTime 25) (JList []);
    mkLogRecord 3 "room" "full_sync" "pseudonym-alice"
      (ServerTime 10) (JList [JInt 30]) ].
(** A replay session of that room before [init_replay]. *)
Definition observer : ReplayConsumer :=
  mkReplayConsumer "room" [] ∅ (fun _ => "Jane Doe") 0 [] [].
End Samples.

(** The [changes] field of the last message handed to the channel layer. *)
Definition outbound_changes (w : World) : option json :=
  m ← last (group_sends w); notification m.2 !! "changes".

(** ** Handler invocations and their vocabulary *)

(** The [time] entry of a change can be used: it is falsy (the server's
    clock is taken) or a string (it is parsed). *)
Definition time_ok (change : dict) : Prop :=
  forall t, change !! "time" = Some t -> truthy t = true ->
            exists raw, t = JStr raw.

(** The timestamp of the record of a change that is handled. *)
Definition stored_time (now : Z) (change : dict) : Timestamp :=
  match change !! "time" with
  | Some (JStr raw) =>
      if String.eqb raw "" then ServerTime now else ParsedTime raw
  | _ => ServerTime now
  end.

(** The log row of one change of a batch. *)
Definition stored_as (room_name eventtype uid : string) (now : Z)
           (change : dict) (r : LogRecord) : Prop :=
  rec_room_name r = room_name /\ rec_event_type r = eventtype /\
  rec_user_pseudonym r = uid /\
  rec_content r = JDict (delete "time" (delete "username" change)) /\
  rec_created_at r = stored_time now change.

(** A record keeps its fields when it is saved under a primary key. *)
Definition saved_from (nr : NewRecord) (r : LogRecord) : Prop :=
  rec_room_name r = new_room_name nr /\
  rec_event_type r = new_event_type nr /\
  rec_user_pseudonym r = new_user_pseudonym nr /\
  rec_created_at r = new_created_at nr /\
  rec_content r = new_content nr.

(** The primary keys of the log grow along the table and stay below the
    counter. *)
Definition log_ordered (w : World) : Prop :=
  StronglySorted Z.lt (rec_id <$> log_records w) /\
  Forall (fun r => rec_id r <= last_record_id w) (log_records w).

(** One invocation of a method of [CollaborationConsumer]. *)
Inductive Call : Type :=
| CallConnect (ALLOW_ANONYMOUS_VISITS authenticated authorized : bool)
              (pseudonym : string) (self : Consumer)
| CallDisconnect (self : Consumer) (code : Z)
| CallCollaboratorChange (self : Consumer) (room_name eventtype : string)
                         (changes : list dict)
| CallElementsChanged (self : Consumer) (room_name eventtype : string)
                      (elems : json) (kwargs : dict)
| CallFullSync (self : Consumer) (room_name eventtype : string)
               (elems : json) (kwargs : dict)
| CallSaveRoom (room_name : string) (elements : list Element).

(** The world after an invocation; [None] when it raises. *)
Definition run (c : Call) (w : World) : option World :=
  match c with
  | CallConnect allow authenticated authorized pseudonym self =>
      snd <$> connect allow authenticated authorized pseudonym self w
  | CallDisconnect self code => disconnect self code w
  | CallCollaboratorChange self room_name eventtype changes =>
      collaborator_change self room_name eventtype changes w
  | CallElementsChanged self room_name eventtype elems kwargs =>
      elements_changed self room_name eventtype elems kwargs w
  | CallFullSync self room_name eventtype elems kwargs =>
      full_sync self room_name eventtype elems kwargs w
  | CallSaveRoom room_name elements =>
      Some (set_rooms (save_room room_name elements (rooms w)).1 w)
  end.

(** The event type a handler is given is one it is the handler of (or, for
    [elements_changed], the one [full_sync] passes on). *)
Definition dispatched (c : Call) : Prop :=
  match c with
  | CallCollaboratorChange _ _ eventtype _ => eventtype = "collaborator_change"
  | CallElementsChanged _ _ eventtype _ _ =>
      eventtype ∈ ["full_sync"; "elements_changed"]
  | CallFullSync _ _ eventtype _ _ => eventtype = "full_sync"
  | _ => True
  end.

(** [upsert_rooms(room_names)] of [lti_configure] (ltiapi/views.py) on the
    element collections: a [get_or_create] per name, whose defaults (creator,
    consumer, course id) do not include the elements. *)
Definition upsert_rooms (room_names : list string) (rooms : RoomTable)
  : RoomTable :=
  foldl (fun rooms room_name => (get_or_create_room room_name rooms).2)
        rooms room_names.

(** The messages one record is replayed as when the display names are
    [names]: none for an event type the replay does not know. *)
Definition replay_messages (names : gmap string string) (r : LogRecord)
  : list dict :=
  if bool_decide (rec_event_type r ∈ ["full_sync"; "elements_changed"])
  then [ {[ "eventtype" := JStr (rec_event_type r);
            "elements" := rec_content r ]} ]
  else if bool_decide (rec_event_type r = "collaborator_change")
  then
    match rec_content r, names !! rec_user_pseudonym r with
    | JDict content, Some name =>
        [ {[ "eventtype" := JStr "collaborator_change";
             "changes" :=
               JList [JDict (<["userRoomId" := JStr (rec_user_pseudonym r)]>
                               (<["username" := JStr name]> content))] ]} ]
    | _, _ => []
    end
  else [].

(** The display names [names] suffice to replay a record: when it is
    replayed as a collaborator change, it holds a dict and its pseudonym has
    a name. *)
Definition names_cover (names : gmap string string) (r : LogRecord) : Prop :=
  rec_event_type r ∉ ["full_sync"; "elements_changed"] ->
  rec_event_type r = "collaborator_change" ->
  (exists d, rec_content r = JDict d) /\
  is_Some (names !! rec_user_pseudonym r).

(** The messages of one pass over the ids [ids] under the names [names]. *)
Definition replay_pass (table : list LogRecord) (names : gmap string string)
           (ids : list Z) : list dict :=
  flat_map (fun pk => from_option (replay_messages names) []
                        (get_log_record table pk)) ids.

(** * Properties *)

(** ** Reconciler *)

Section Reconciler.

Implicit Types (rooms : RoomTable) (elements old : list Element).
Implicit Types (versions : gmap string Z) (e : Element).

Lemma old_room_versions_foldl_lookup elements (m : gmap string Z) i v :
  foldl (fun m e => <[eid e := version e]> m) m elements !! i = Some v ->
  m !! i = Some v \/ exists e, e ∈ elements /\ eid e = i /\ version e = v.
Proof.
  revert m. induction elements as [|e rest IH]; intros m; simpl.
  - by left.
  - intros H. destruct (IH _ H) as [Hm | (e' & Hin & Hid & Hv)].
    + destruct (decide (eid e = i)) as [Heq | Hne].
      * subst i. rewrite lookup_insert_eq in Hm. inversion Hm.
        right. exists e. split; [left | done].
      * rewrite lookup_insert_ne in Hm by done. by left.
    + right. exists e'. split; [by right | done].
Qed.

(** A version recorded for an id belongs to a stored element with that id. *)
Lemma old_room_versions_lookup elements i v :
  old_room_versions elements !! i = Some v ->
  exists e, e ∈ elements /\ eid e = i /\ version e = v.
Proof.
  intros H. apply old_room_versions_foldl_lookup in H as [H | H]; [|done].
  by rewrite lookup_empty in H.
Qed.

(** The loop runs to its end only when no element is older than stored. *)
Lemma compare_versions_Some versions elements d d' :
  compare_versions versions elements d = Some d' ->
  forall e, e ∈ elements -> default (-1) (versions !! eid e) <= version e.
Proof.
  revert d. induction elements as [|x rest IH]; intros d H e Hin.
  - by apply elem_of_nil in Hin.
  - simpl in H.
    destruct (default (-1) (versions !! eid x) >? version x)%Z eqn:Hgt;
      [done|].
    apply elem_of_cons in Hin as [-> | Hin]; [lia | by eapply IH].
Qed.

(** One older element anywhere makes the loop return early. *)
Lemma compare_versions_stale versions elements d e :
  e ∈ elements -> version e < default (-1) (versions !! eid e) ->
  compare_versions versions elements d = None.
Proof.
  revert d. induction elements as [|x rest IH]; intros d Hin Hlt.
  - by apply elem_of_nil in Hin.
  - simpl. apply elem_of_cons in Hin as [<- | Hin].
    + destruct (default (-1) (versions !! eid e) >? version e)%Z eqn:Hgt;
        [done | lia].
    + destruct (default (-1) (versions !! eid x) >? version x)%Z; [done|].
      by apply IH.
Qed.

Lemma elem_of_filter_not_deleted elements e :
  e ∈ List.filter not_deleted elements <->
  e ∈ elements /\ not_deleted e = true.
Proof. rewrite !list_elem_of_In. apply filter_In. Qed.

(** [save_room] on a room without a row: the row is created with the
    default collection and nothing else happens. *)
Lemma save_room_created room_name elements rooms :
  rooms !! room_name = None ->
  save_room room_name elements rooms
  = (<[room_name := default_elements]> rooms, false).
Proof. intros H. unfold save_room, get_or_create_room. by rewrite H. Qed.

(** [save_room] on a room with a row. *)
Lemma save_room_existing room_name elements rooms old :
  rooms !! room_name = Some old ->
  save_room room_name elements rooms =
  match compare_versions (old_room_versions old)
          (List.filter not_deleted elements) false with
  | Some true =>
      (<[room_name := List.filter not_deleted elements]> rooms, true)
  | _ => (rooms, false)
  end.
Proof.
  intros H. unfold save_room, get_or_create_room, upsert_room.
  rewrite H. simpl.
  by destruct (compare_versions _ _ _) as [[]|].
Qed.

(** The snapshot after a call is the one before, the default of a new
    row, or the incoming collection without its tombstones. *)
Lemma save_room_snapshot room_name elements rooms :
  let after := snapshot (save_room room_name elements rooms).1 room_name in
  (after = snapshot rooms room_name /\ is_Some (snapshot rooms room_name))
  \/ (after = Some default_elements /\ snapshot rooms room_name = None)
  \/ (after = Some (List.filter not_deleted elements) /\
      exists old, snapshot rooms room_name = Some old /\
        compare_versions (old_room_versions old)
          (List.filter not_deleted elements) false = Some true).
Proof.
  unfold snapshot. simpl.
  destruct (rooms !! room_name) as [old|] eqn:Hr.
  - rewrite (save_room_existing _ _ _ _ Hr).
    destruct (compare_versions _ _ _) as [[]|] eqn:Hc; simpl.
    + right; right. rewrite lookup_insert_eq. eauto.
    + left. rewrite Hr. eauto.
    + left. rewrite Hr. eauto.
  - rewrite (save_room_created _ _ _ Hr). simpl.
    right; left. by rewrite lookup_insert_eq.
Qed.

(** Rows of other rooms are never touched. *)
Lemma save_room_other room_name r elements rooms :
  r <> room_name ->
  (save_room room_name elements rooms).1 !! r = rooms !! r.
Proof.
  intros Hne. destruct (rooms !! room_name) as [old|] eqn:Hr.
  - rewrite (save_room_existing _ _ _ _ Hr).
    destruct (compare_versions _ _ _) as [[]|]; simpl; try done.
    by rewrite lookup_insert_ne.
  - rewrite (save_room_created _ _ _ Hr). simpl.
    by rewrite lookup_insert_ne.
Qed.

(** One call never lowers the version stored for an id. *)
Lemma save_room_version_step room_name elements rooms i v v' :
  persisted_version rooms room_name i = Some v ->
  persisted_version (save_room room_name elements rooms).1 room_name i
    = Some v' ->
  v <= v'.
Proof.
  unfold persisted_version. intros Hv Hv'.
  destruct (save_room_snapshot room_name elements rooms)
    as [[Heq _] | [[_ Hnone] | [Heq (old & Hold & Hc)]]].
  - rewrite Heq, Hv in Hv'. inversion Hv'. lia.
  - rewrite Hnone in Hv. done.
  - rewrite Heq in Hv'. rewrite Hold in Hv. simpl in *.
    apply old_room_versions_lookup in Hv' as (e & Hin & <- & <-).
    pose proof (compare_versions_Some _ _ _ _ Hc e Hin) as Hle.
    rewrite Hv in Hle. exact Hle.
Qed.

Lemma get_or_create_no_tombstones room_name rooms :
  no_tombstones rooms ->
  no_tombstones (get_or_create_room room_name rooms).2.
Proof.
  intros Hinv r els e. unfold get_or_create_room.
  destruct (rooms !! room_name) eqn:Hr; simpl; [apply Hinv|].
  destruct (decide (r = room_name)) as [->|Hne].
  - rewrite lookup_insert_eq. intros [= <-] Hin.
    by apply elem_of_nil in Hin.
  - rewrite lookup_insert_ne by done. apply Hinv.
Qed.

Lemma save_room_no_tombstones room_name elements rooms :
  no_tombstones rooms ->
  no_tombstones (save_room room_name elements rooms).1.
Proof.
  intros Hinv r els e Hr Hin.
  destruct (decide (r = room_name)) as [->|Hne].
  - destruct (save_room_snapshot room_name elements rooms)
      as [[Heq _] | [[Heq _] | [Heq _]]];
      unfold snapshot in Heq; rewrite Heq in Hr.
    + by eapply Hinv.
    + inversion Hr; subst els. by apply elem_of_nil in Hin.
    + inversion Hr; subst els.
      by apply elem_of_filter_not_deleted in Hin as [_ ?].
  - rewrite save_room_other in Hr by done. by eapply Hinv.
Qed.

(** Every table the code can produce is free of tombstones. *)
Lemma reachable_no_tombstones rooms : reachable rooms -> no_tombstones rooms.
Proof.
  induction 1 as [| r rooms _ IH | r elements rooms _ IH].
  - intros r els e Hr. by rewrite lookup_empty in Hr.
  - by apply get_or_create_no_tombstones.
  - by apply save_room_no_tombstones.
Qed.

End Reconciler.

(** ** Claims about [save_room] *)

(** C1.  The claim asks that a call which creates the Room row persists the
    incoming collection (without tombstones).  The code leaves
    [differences_detected] at [False] when [created] holds and returns
    before the update: on an empty table, [save_room("room", [{id: A,
    version: 1}])] creates the row with the default collection and does not
    store A. *)
Theorem save_room_fresh_room_not_persisted :
  save_room "room" [Samples.A1] ∅ = ({[ "room" := [] ]}, false) /\
  snapshot (save_room "room" [Samples.A1] ∅).1 "room"
    <> Some (List.filter not_deleted [Samples.A1]).
Proof. split; [by vm_compute | by vm_compute]. Qed.

(** C2.  On an existing room, if some incoming element that is not deleted
    has a version strictly below the version stored for its id, the call
    leaves the whole table as it was and issues no update: no incoming
    element is stored, new ids included. *)
Theorem save_room_stale_rejected room_name elements rooms old e v :
  rooms !! room_name = Some old ->
  e ∈ elements -> not_deleted e = true ->
  old_room_versions old !! eid e = Some v -> version e < v ->
  save_room room_name elements rooms = (rooms, false).
Proof.
  intros Hr Hin Hnd Hv Hlt.
  rewrite (save_room_existing _ _ _ _ Hr).
  rewrite (compare_versions_stale _ _ _ e); [done | | by rewrite Hv].
  by apply elem_of_filter_not_deleted.
Qed.

(** The spec's example: [{A: 5}] stored, [{A: 4}, {B: 10}] submitted. *)
Lemma save_room_stale_rejected_witness :
  save_room "room" [Samples.A4; Samples.B10] Samples.room_A5
  = (Samples.room_A5, false).
Proof.
  apply (save_room_stale_rejected "room" [Samples.A4; Samples.B10]
           Samples.room_A5 [Samples.A5] Samples.A4 5).
  - reflexivity.
  - apply elem_of_cons. by left.
  - reflexivity.
  - reflexivity.
  - simpl. lia.
Defined.

(** Between two consecutive points of a history the version of an id that
    is present at both does not drop. *)
Lemma version_history_adjacent room_name i calls rooms m a b :
  version_history room_name i calls rooms !! m = Some (Some a) ->
  version_history room_name i calls rooms !! S m = Some (Some b) ->
  a <= b.
Proof.
  revert rooms m. induction calls as [|elements rest IH]; intros rooms m.
  - destruct m; simpl; intros _ H; inversion H.
  - destruct m as [|m]; simpl.
    + intros [= Ha] Hb. destruct rest; simpl in Hb; injection Hb as Hb;
        eapply save_room_version_step; eauto.
    + apply IH.
Qed.

(** C3, the claim as stated fails: after [{A: 5}] is stored, a snapshot
    holding only B is accepted and drops A, and a later snapshot with
    [{A: 2}] is accepted as new.  The history of A is 5, absent, 2. *)
Lemma version_history_can_decrease :
  version_history "room" "A"
    [[Samples.A5]; [Samples.B1]; [Samples.A2]] Samples.empty_room
  = [None; Some 5; None; Some 2] /\
  ~ versions_nondecreasing
      (version_history "room" "A"
         [[Samples.A5]; [Samples.B1]; [Samples.A2]] Samples.empty_room).
Proof.
  assert (Hh : version_history "room" "A"
    [[Samples.A5]; [Samples.B1]; [Samples.A2]] Samples.empty_room
    = [None; Some 5; None; Some 2]) by (by vm_compute).
  split; [exact Hh|]. rewrite Hh. intros H.
  specialize (H 1%nat 3%nat 5 2). simpl in H.
  assert (5 <= 2) by (apply H; [lia | done | done]). lia.
Qed.

(** C3, amended.  Over any stretch of consecutive [save_room] calls on one
    room during which an element id stays present in the stored snapshot,
    its stored version is non-decreasing. *)
Theorem version_nondecreasing_while_present
        room_name i calls rooms (j k : nat) v v' :
  (j <= k)%nat ->
  (forall m, (j <= m <= k)%nat ->
     exists w, version_history room_name i calls rooms !! m = Some (Some w)) ->
  version_history room_name i calls rooms !! j = Some (Some v) ->
  version_history room_name i calls rooms !! k = Some (Some v') ->
  v <= v'.
Proof.
  intros Hjk. revert v'. induction Hjk as [|k Hjk IH]; intros v' Hall Hj Hk.
  - rewrite Hj in Hk. inversion Hk. lia.
  - destruct (Hall k) as [w Hw]; [lia|].
    assert (v <= w) by (apply IH; [intros m ?; apply Hall; lia | done | done]).
    pose proof (version_history_adjacent _ _ _ _ _ _ _ Hw Hk). lia.
Qed.

(** A stays present over three accepted writes: 1, 1, 5. *)
Lemma version_nondecreasing_while_present_witness : 1 <= 5.
Proof.
  apply (version_nondecreasing_while_present "room" "A"
           [[Samples.A1]; [Samples.A1; Samples.B1]; [Samples.B10; Samples.A5]]
           Samples.empty_room 1 3 1 5).
  - lia.
  - intros m Hm.
    assert (m = 1 \/ m = 2 \/ m = 3)%nat as [-> | [-> | ->]] by lia;
      vm_compute; eauto.
  - by vm_compute.
  - by vm_compute.
Defined.

(** C4, the claim as stated fails: with [{A: 5}] stored, the snapshot
    [{B: 1}] is accepted and A is no longer stored afterwards. *)
Lemma save_room_accepted_loses_id :
  (save_room "room" [Samples.B1] Samples.room_A5).2 = true /\
  ~ (persisted_ids Samples.room_A5 "room"
       ⊆ persisted_ids (save_room "room" [Samples.B1] Samples.room_A5).1
           "room").
Proof.
  split; [by vm_compute|].
  replace (save_room "room" [Samples.B1] Samples.room_A5).1
    with ({[ "room" := [Samples.B1] ]} : RoomTable) by (by vm_compute).
  unfold persisted_ids, snapshot, Samples.room_A5.
  rewrite !lookup_singleton_eq. simpl. unfold ids_of. simpl.
  intros H. specialize (H "A").
  rewrite !elem_of_union, !elem_of_singleton in H.
  destruct H as [H | H]; [by left | done | by apply elem_of_empty in H].
Qed.

(** C4, amended.  An accepted write replaces the stored collection by the
    incoming one without its tombstones: the ids stored afterwards are
    exactly the ids of the incoming elements that are not deleted (ids
    stored before and absent from them are dropped). *)
Theorem save_room_accepted_ids room_name elements rooms rooms' :
  save_room room_name elements rooms = (rooms', true) ->
  snapshot rooms' room_name = Some (List.filter not_deleted elements) /\
  persisted_ids rooms' room_name = ids_of (List.filter not_deleted elements).
Proof.
  intros Hsave.
  assert (Hs : snapshot rooms' room_name
               = Some (List.filter not_deleted elements)).
  { unfold snapshot. destruct (rooms !! room_name) as [old|] eqn:Hr.
    - rewrite (save_room_existing _ _ _ _ Hr) in Hsave.
      destruct (compare_versions _ _ _) as [[]|]; try done.
      injection Hsave as <-. by rewrite lookup_insert_eq.
    - by rewrite (save_room_created _ _ _ Hr) in Hsave. }
  split; [done|]. unfold persisted_ids. by rewrite Hs.
Qed.

(** [{A: 5}] stored, [{B: 1}, {C: 1, deleted}] submitted: B alone is kept. *)
Lemma save_room_accepted_ids_witness :
  snapshot {[ "room" := [Samples.B1] ]} "room"
  = Some (List.filter not_deleted [Samples.B1; Samples.C1_deleted]) /\
  persisted_ids {[ "room" := [Samples.B1] ]} "room"
  = ids_of (List.filter not_deleted [Samples.B1; Samples.C1_deleted]).
Proof.
  apply (save_room_accepted_ids "room" [Samples.B1; Samples.C1_deleted]
           Samples.room_A5 {[ "room" := [Samples.B1] ]}).
  by vm_compute.
Defined.

(** An id-level companion: when an id is not stored before the call and
    every incoming element carrying it is tombstoned, the id is not stored
    afterwards either. *)
Lemma save_room_tombstoned_id_not_added room_name elements rooms i els :
  (forall old, snapshot rooms room_name = Some old -> i ∉ ids_of old) ->
  (forall e, e ∈ elements -> eid e = i -> not_deleted e = false) ->
  snapshot (save_room room_name elements rooms).1 room_name = Some els ->
  i ∉ ids_of els.
Proof.
  intros Hold Hdel Hafter.
  destruct (save_room_snapshot room_name elements rooms)
    as [[Heq _] | [[Heq _] | [Heq _]]]; simpl in Heq; rewrite Heq in Hafter.
  - by apply Hold.
  - injection Hafter as <-. unfold ids_of, default_elements. set_solver.
  - injection Hafter as <-. unfold ids_of.
    rewrite elem_of_list_to_set, list_elem_of_fmap.
    intros (e & -> & Hin). apply elem_of_filter_not_deleted in Hin as [Hin Hnd].
    rewrite (Hdel e Hin eq_refl) in Hnd. done.
Qed.

(** C5.  In every table the code can produce, and for every [save_room]
    call, an incoming element with [isDeleted == true] is not in the room's
    stored snapshot after the call; this covers the call that creates the
    Room row. *)
Theorem save_room_tombstone_not_persisted room_name elements rooms e els :
  reachable rooms ->
  e ∈ elements -> isDeleted e = Some true ->
  snapshot (save_room room_name elements rooms).1 room_name = Some els ->
  e ∉ els.
Proof.
  intros Hreach Hin Hdel Hafter Hmem.
  assert (Hinv : no_tombstones (save_room room_name elements rooms).1)
    by (apply save_room_no_tombstones, reachable_no_tombstones, Hreach).
  specialize (Hinv room_name els e Hafter Hmem).
  unfold not_deleted in Hinv. rewrite Hdel in Hinv. done.
Qed.

(** A tombstoned C submitted to an existing room and to a room that the
    call creates. *)
Lemma save_room_tombstone_not_persisted_witness :
  (Samples.C1_deleted ∉ [Samples.B1]) /\
  (Samples.C1_deleted ∉ ([] : list Element)).
Proof.
  split.
  - apply (save_room_tombstone_not_persisted "room"
             [Samples.C1_deleted; Samples.B1] Samples.empty_room).
    + apply (reach_get_or_create "room" ∅ reach_empty).
    + apply elem_of_cons. by left.
    + reflexivity.
    + by vm_compute.
  - apply (save_room_tombstone_not_persisted "room"
             [Samples.C1_deleted; Samples.B1] ∅).
    + apply reach_empty.
    + apply elem_of_cons. by left.
    + reflexivity.
    + by vm_compute.
Defined.

(** ** Broadcasting *)

Section Broadcast.

Implicit Types (w : World) (event : Envelope) (ch : string).

Lemma frames_send_json c content w ch :
  frames (send_json c content w) ch =
  if decide (c = ch) then frames w c ++ [SendJson content] else frames w ch.
Proof.
  unfold send_json, frames at 1. simpl.
  destruct (decide (c = ch)) as [->|Hne].
  - by rewrite lookup_insert_eq.
  - by rewrite lookup_insert_ne.
Qed.

Lemma frames_notify_client c event w ch :
  frames (notify_client c event w) ch =
  if decide (c = ch /\ sender event <> ch)
  then frames w ch ++ [SendJson (notification event)] else frames w ch.
Proof.
  unfold notify_client. destruct (decide (sender event <> c)) as [Hs|Hs].
  - rewrite frames_send_json. destruct (decide (c = ch)) as [->|Hne].
    + by rewrite decide_True.
    + rewrite decide_False; [done | tauto].
  - rewrite decide_False; [done|]. intros [-> ?]. done.
Qed.

(** Delivering an event to a duplicate-free list of channels: every
    listed channel but the sender's gets the notification, once. *)
Lemma frames_notify_all event (l : list string) w ch :
  NoDup l ->
  frames (foldl (fun w c => notify_client c event w) w l) ch =
  if decide (ch ∈ l /\ sender event <> ch)
  then frames w ch ++ [SendJson (notification event)] else frames w ch.
Proof.
  intros Hnd. revert w. induction Hnd as [|c l Hnotin Hnd IH]; intros w;
    cbn [foldl].
  - case_decide as H; [|done]. destruct H as [H _].
    by apply elem_of_nil in H.
  - rewrite IH, frames_notify_client.
    repeat case_decide; try done; exfalso; set_solver.
Qed.

(** Delivery touches nothing but the transport. *)
Lemma notify_all_frame event (l : list string) w :
  let w' := foldl (fun w c => notify_client c event w) w l in
  rooms w' = rooms w /\ log_records w' = log_records w /\
  last_record_id w' = last_record_id w /\ groups w' = groups w /\
  group_sends w' = group_sends w /\ clock w' = clock w.
Proof.
  revert w. induction l as [|c l IH]; intros w; simpl; [done|].
  destruct (IH (notify_client c event w)) as (-> & -> & -> & -> & -> & ->).
  unfold notify_client. by destruct (decide _).
Qed.

Lemma group_send_frames group event w ch :
  frames (group_send group event w) ch =
  if decide (ch ∈ members w group /\ sender event <> ch)
  then frames w ch ++ [SendJson (notification event)] else frames w ch.
Proof.
  unfold group_send. rewrite frames_notify_all by apply NoDup_elements.
  assert (Hiff : ch ∈ elements (members w group) <-> ch ∈ members w group)
    by apply elem_of_elements.
  destruct (decide (ch ∈ members w group /\ sender event <> ch)).
  - rewrite decide_True; [done | tauto].
  - rewrite decide_False; [done | tauto].
Qed.

Lemma group_send_frame group event w :
  let w' := group_send group event w in
  rooms w' = rooms w /\ log_records w' = log_records w /\
  last_record_id w' = last_record_id w /\ groups w' = groups w /\
  group_sends w' = group_sends w ++ [(group, event)] /\ clock w' = clock w.
Proof.
  unfold group_send.
  pose proof (notify_all_frame event (elements (members w group))
    (set_group_sends (group_sends w ++ [(group, event)]) w)) as H.
  simpl in H. exact H.
Qed.

End Broadcast.

(** C8.  When a session broadcasts through [send_event], its own
    connection forwards nothing to its client, and every other channel
    registered in the room's group forwards the notification to its client
    (exactly once); each receiver decides by comparing the envelope's
    sender with its own channel name. *)
Theorem send_event_echo_suppression self eventtype event_args w ch :
  let w' := send_event self eventtype event_args w in
  let n := event_args ∪ {[ "eventtype" := JStr eventtype ]} in
  frames w' (channel_name self) = frames w (channel_name self) /\
  (ch ∈ members w (group_name self) -> ch <> channel_name self ->
   frames w' ch = frames w ch ++ [SendJson n]).
Proof.
  simpl. unfold send_event. split.
  - rewrite group_send_frames. simpl. rewrite decide_False; [done | tauto].
  - intros Hin Hne. rewrite group_send_frames. simpl.
    rewrite decide_True; [done|]. split; [done | congruence].
Qed.

(** Alice broadcasts; Bob's connection forwards it, Alice's does not. *)
Lemma send_event_echo_suppression_witness :
  frames (send_event Samples.alice "elements_changed"
            {[ "elements" := JList [] ]} Samples.world0) "chan.alice" = [] /\
  frames (send_event Samples.alice "elements_changed"
            {[ "elements" := JList [] ]} Samples.world0) "chan.bob"
  = [SendJson {[ "elements" := JList [];
                 "eventtype" := JStr "elements_changed" ]}].
Proof.
  pose proof (send_event_echo_suppression Samples.alice "elements_changed"
                {[ "elements" := JList [] ]} Samples.world0 "chan.bob")
    as [Hself Hpeer].
  split; [exact Hself|].
  rewrite Hpeer; [by vm_compute | by vm_compute | discriminate].
Defined.

(** ** Admission *)

(** C9.  With anonymous visits disabled, [connect] for a user who is neither
    authenticated nor authorized accepts the socket, sends one
    [login_required] notification to that client and tears the connection
    down with code 3000.  Nothing is handed to the channel layer (so no
    [collaborator_left] reaches any peer), no other connection sees a frame,
    and the room's group is left as it was. *)
Theorem connect_rejected_sends_login_required self pseudonym w :
  exists w',
    connect false false false pseudonym self w = Some (self, w') /\
    transport w' =
      <[channel_name self :=
          frames w (channel_name self) ++
          [Accept; SendJson {[ "eventtype" := JStr "login_required" ]};
           Close 3000]]> (transport w) /\
    group_sends w' = group_sends w /\
    groups w' = groups w /\
    log_records w' = log_records w.
Proof.
  eexists. split.
  - unfold connect, disconnect. simpl. reflexivity.
  - simpl. split_and!; try done.
    unfold frames. simpl. rewrite !lookup_insert_eq. simpl.
    rewrite !insert_insert_eq. unfold frames, super_connect. simpl.
    rewrite lookup_insert_eq. simpl. by rewrite <- !app_assoc.
Qed.

(** The rejected visitor next to two admitted sessions: only the
    visitor's connection sees frames, and the group is as before. *)
Example connect_rejected_visitor :
  match connect false false false "pseudonym-visitor" Samples.visitor
          Samples.world0 with
  | Some (_, w') =>
      (frames w' "chan.visitor", frames w' "chan.alice", frames w' "chan.bob",
       group_sends w', bool_decide (groups w' = groups Samples.world0))
  | None => ([], [], [], [], false)
  end
  = ([Accept; SendJson {[ "eventtype" := JStr "login_required" ]}; Close 3000],
     [], [], [], true).
Proof. by vm_compute. Qed.

(** In contrast, a regular close of an admitted session tells the peers
    and leaves the group. *)
Example disconnect_notifies_peers :
  match disconnect Samples.bob 1001 Samples.world0 with
  | Some w' =>
      (frames w' "chan.alice", frames w' "chan.bob",
       elements (members w' "draw_room_room"))
  | None => ([], [], [])
  end
  = ([SendJson {[ "eventtype" := JStr "collaborator_left";
                  "collaborator" :=
                    JDict {[ "userRoomId" := JStr "pseudonym-bob" ]} ]}],
     [Close 1001], ["chan.alice"]).
Proof. by vm_compute. Qed.

(** ** Element events *)

(** C6.  [full_sync] is [elements_changed] with the same arguments.  For an
    admitted session it hands one message to the channel layer and appends
    one log record holding the collection, and the Room table is left as it
    was: [save_room] is not run. *)
Theorem full_sync_broadcasts_and_logs_only
        self room_name eventtype elems kwargs w uid :
  user_room_id self = Some uid ->
  full_sync self room_name eventtype elems kwargs w
  = elements_changed self room_name eventtype elems kwargs w /\
  exists w',
    full_sync self room_name eventtype elems kwargs w = Some w' /\
    rooms w' = rooms w /\
    log_records w' =
      log_records w ++
      [mkLogRecord (last_record_id w + 1) room_name eventtype uid
         (ServerTime (clock w)) elems] /\
    group_sends w' =
      group_sends w ++
      [(group_name self,
        mkEnvelope "notify_client"
          (<["elements" := elems]> kwargs ∪ {[ "eventtype" := JStr eventtype ]})
          (channel_name self))].
Proof.
  intros Huid. split; [done|].
  unfold full_sync, elements_changed. rewrite Huid. simpl.
  eexists. split; [reflexivity|].
  unfold create_record, send_event.
  match goal with |- context [group_send ?g ?e w] =>
    destruct (group_send_frame g e w) as (Hr & Hl & Hid & _ & Hs & _)
  end.
  simpl. rewrite Hr, Hl, Hid, Hs. done.
Qed.

(** A full sync by Alice: one log row, one broadcast, Room table untouched. *)
Lemma full_sync_broadcasts_and_logs_only_witness :
  exists w',
    full_sync Samples.alice "room" "full_sync" (JList []) ∅ Samples.world0
    = Some w' /\
    rooms w' = Samples.room_A5 /\
    length (log_records w') = 1%nat /\ length (group_sends w') = 1%nat.
Proof.
  destruct (full_sync_broadcasts_and_logs_only Samples.alice "room"
              "full_sync" (JList []) ∅ Samples.world0 "pseudonym-alice"
              eq_refl) as (_ & w' & Hrun & Hrooms & Hlog & Hsends).
  exists w'. rewrite Hlog, Hsends. by split_and!.
Defined.

(** ** Collaborator changes *)

Section CollaboratorChange.

Implicit Types (w : World) (change : dict).

(** The dict stored as a record's content has lost [username] and
    [time]; every other key is kept. *)
Lemma strip_change_content room_name eventtype uid now change r :
  strip_change room_name eventtype uid now change = Some r ->
  is_Some (change !! "username") /\
  new_content r = JDict (delete "time" (delete "username" change)) /\
  new_user_pseudonym r = uid.
Proof.
  unfold strip_change. intros H.
  destruct (change !! "username") as [u|]; [|done]. simpl in H.
  destruct (if truthy _ then _ else _) as [t|]; [|done]. simpl in H.
  injection H as <-. eauto.
Qed.

(** A bulk insert appends one row per record, contents unchanged, and
    touches nothing besides the log table. *)
Lemma bulk_create_records_spec (P : json -> Prop) records w :
  Forall (fun r => P (new_content r)) records ->
  exists new,
    log_records (bulk_create_records records w) = log_records w ++ new /\
    length new = length records /\
    Forall (fun r => P (rec_content r)) new /\
    rooms (bulk_create_records records w) = rooms w /\
    group_sends (bulk_create_records records w) = group_sends w.
Proof.
  unfold bulk_create_records. intros HP. revert w.
  induction HP as [|r rest Hr _ IH]; intros w.
  - exists []. simpl. by rewrite app_nil_r.
  - cbn [foldl]. destruct (IH (create_record r w))
      as (new & Hlog & Hlen & Hall & Hrooms & Hsends).
    eexists (_ :: new). rewrite Hlog, Hrooms, Hsends. simpl.
    rewrite <- app_assoc. simpl. split_and!; try done.
    + by rewrite Hlen.
    + by constructor.
Qed.

End CollaboratorChange.

(** C7, the claim as stated fails: the notification sent to the peers is
    built from a copy of the last change taken before [username] is
    removed, so it still carries the name the client supplied. *)
Lemma collaborator_change_broadcasts_username :
  (w' ← collaborator_change Samples.alice "room" "collaborator_change"
          [Samples.change_bob] Samples.world0;
   outbound_changes w')
  = Some (JList [JDict {[ "username" := JStr "Bob"; "pointer" := JInt 7;
                          "userRoomId" := JStr "pseudonym-alice" ]}]) /\
  ({[ "username" := JStr "Bob"; "pointer" := JInt 7;
      "userRoomId" := JStr "pseudonym-alice" ]} : dict) !! "username"
  = Some (JStr "Bob").
Proof. split; by vm_compute. Qed.

(** C7, amended.  For every batch that is handled, [username] is removed
    from every change before it is stored: no content of a record added to
    the log has a [username] key.  The one notification handed to the
    channel layer is the last change of the batch as the client sent it,
    with [userRoomId] set to the session's pseudonym: it keeps that
    change's [username]. *)
Theorem collaborator_change_strips_username_from_log
        self room_name eventtype changes w w' :
  collaborator_change self room_name eventtype changes w = Some w' ->
  exists uid last_change new,
    user_room_id self = Some uid /\ last changes = Some last_change /\
    log_records w' = log_records w ++ new /\
    length new = length changes /\
    Forall (fun r => exists d, rec_content r = JDict d /\
                               d !! "username" = None) new /\
    group_sends w' =
      group_sends w ++
      [(group_name self,
        mkEnvelope "notify_client"
          ({[ "changes" :=
                JList [JDict (<["userRoomId" := JStr uid]> last_change)] ]}
             ∪ {[ "eventtype" := JStr eventtype ]})
          (channel_name self))] /\
    <["userRoomId" := JStr uid]> last_change !! "userRoomId"
      = Some (JStr uid) /\
    <["userRoomId" := JStr uid]> last_change !! "username"
      = last_change !! "username" /\
    is_Some (last_change !! "username").
Proof.
  unfold collaborator_change. intros H.
  destruct (last changes) as [last_change|] eqn:Hlast; [|done].
  destruct (user_room_id self) as [uid|] eqn:Huid; [|done]. simpl in H.
  destruct (mapM _ changes) as [records|] eqn:Hmap; [|done]. simpl in H.
  injection H as <-.
  apply mapM_Some_1 in Hmap.
  assert (Hstripped : Forall (fun r => exists d, new_content r = JDict d /\
                                d !! "username" = None) records).
  { clear -Hmap. induction Hmap as [|c r cs rs Hc _ IH]; constructor; auto.
    apply strip_change_content in Hc as (_ & -> & _).
    eexists. split; [done|].
    rewrite lookup_delete_ne by done. apply lookup_delete_eq. }
  destruct (bulk_create_records_spec
              (fun c => exists d, c = JDict d /\ d !! "username" = None)
              records w Hstripped)
    as (new & Hlog & Hlen & Hall & _ & Hsends).
  exists uid, last_change, new.
  unfold send_event.
  match goal with |- context [group_send ?g ?e ?w0] =>
    destruct (group_send_frame g e w0) as (_ & Hl & _ & _ & Hs & _)
  end.
  rewrite Hl, Hs, Hlog, Hsends.
  split_and!; try done.
  - rewrite Hlen. symmetry. by eapply Forall2_length.
  - apply lookup_insert_eq.
  - by rewrite lookup_insert_ne.
  - apply last_Some_elem_of in Hlast.
    apply list_elem_of_lookup in Hlast as [i Hi].
    destruct (Forall2_lookup_l _ _ _ _ _ Hmap Hi) as (r & _ & Hr).
    by apply strip_change_content in Hr as (? & _).
Qed.

(** Bob's pointer update, as stored in the log. *)
Lemma collaborator_change_strips_username_from_log_witness :
  exists w' new,
    collaborator_change Samples.alice "room" "collaborator_change"
      [Samples.change_bob] Samples.world0 = Some w' /\
    log_records w' = new /\
    Forall (fun r => exists d, rec_content r = JDict d /\
                               d !! "username" = None) new.
Proof.
  eexists.
  destruct (collaborator_change_strips_username_from_log Samples.alice "room"
              "collaborator_change" [Samples.change_bob] Samples.world0 _
              eq_refl)
    as (uid & last_change & new & _ & _ & Hlog & _ & Hall & _).
  exists new. split; [reflexivity|]. split; [exact Hlog | exact Hall].
Defined.

(** ** Replay *)

Section ReplayOrder.

Import Replay.
Implicit Types (table : list LogRecord) (s : ReplayConsumer).

(** The ids of a room come out of the query in ascending order and are
    the ids of the room's rows. *)
Lemma get_log_record_ids_sorted table room_name :
  Sorted Z.le (get_log_record_ids_for_room table room_name).
Proof. apply Sorted_merge_sort; apply _. Qed.

Lemma get_log_record_ids_Permutation table room_name :
  get_log_record_ids_for_room table room_name ≡ₚ
  rec_id <$>
    List.filter (fun r => String.eqb (rec_room_name r) room_name) table.
Proof. apply merge_sort_Permutation. Qed.

(** With a unique primary key the order is strictly ascending. *)
Lemma get_log_record_ids_strictly_ascending table room_name :
  NoDup (rec_id <$> table) ->
  StronglySorted Z.lt (get_log_record_ids_for_room table room_name).
Proof.
  intros Hnd.
  assert (Hnd' : NoDup (get_log_record_ids_for_room table room_name)).
  { rewrite get_log_record_ids_Permutation.
    clear -Hnd. induction table as [|r t IH]; simpl; [constructor|].
    apply NoDup_cons in Hnd as [Hnotin Hnd].
    destruct (String.eqb _ _); [|by apply IH].
    simpl. apply NoDup_cons. split; [|by apply IH].
    intros Hin. apply Hnotin.
    apply list_elem_of_fmap in Hin as (x & -> & Hx).
    apply list_elem_of_fmap. exists x. split; [done|].
    apply list_elem_of_In in Hx. apply filter_In in Hx as [Hx _].
    by apply list_elem_of_In. }
  pose proof (StronglySorted_merge_sort Z.le
    (rec_id <$> List.filter
       (fun r => String.eqb (rec_room_name r) room_name) table)) as Hs.
  fold (get_log_record_ids_for_room table room_name) in Hs.
  induction Hs as [|x l Hs IH Hall]; [constructor|].
  apply NoDup_cons in Hnd' as [Hnotin Hnd'].
  constructor; [by apply IH|].
  apply Forall_forall. intros y Hy.
  pose proof (proj1 (Forall_forall _ _) Hall y Hy) as Hle.
  assert (x <> y) by (intros ->; by apply Hnotin, list_elem_of_In).
  lia.
Qed.

(** Every id the query returns is the key of a row of the table. *)
Lemma get_log_record_of_listed_id table room_name pk :
  pk ∈ get_log_record_ids_for_room table room_name ->
  exists r, get_log_record table pk = Some r /\ r ∈ table.
Proof.
  rewrite get_log_record_ids_Permutation. intros Hin.
  apply list_elem_of_fmap in Hin as (x & -> & Hx).
  apply list_elem_of_In, filter_In in Hx as [Hx _].
  unfold get_log_record.
  destruct (find _ table) as [r|] eqn:Hfind.
  - exists r. split; [done|]. apply find_some in Hfind as [Hr _].
    by apply list_elem_of_In.
  - pose proof (find_none _ _ Hfind x Hx) as Hneq. simpl in Hneq. lia.
Qed.

(** One step on a replayable row: the head id is fetched and exactly one
    message, the replay of that row, is sent. *)
Lemma send_next_event_replayable table s pk rest r :
  log_record_ids s = pk :: rest ->
  get_log_record table pk = Some r -> replayable r ->
  exists s' msg,
    send_next_event table s = Some s' /\
    log_record_ids s' = rest /\
    fetched s' = fetched s ++ [pk] /\
    sent s' = sent s ++ [msg] /\
    replays table pk msg.
Proof.
  intros Hids Hget Hrep. unfold send_next_event. rewrite Hids, Hget. simpl.
  destruct Hrep as [Hel | [Hcc (d & Hd)]].
  - rewrite bool_decide_eq_true_2 by done.
    eexists _, _. split; [reflexivity|]. simpl. split_and!; try done.
    exists r. split_and!; try done.
    intros Hcc. rewrite Hcc in Hel. exfalso. set_solver.
  - rewrite bool_decide_eq_false_2 by (rewrite Hcc; set_solver).
    rewrite bool_decide_eq_true_2 by done. rewrite Hd.
    unfold display_name. simpl.
    destruct (encountered_user_pseudonyms s !! rec_user_pseudonym r)
      as [name|]; simpl.
    + eexists _, _. split; [reflexivity|]. simpl. split_and!; try done.
      exists r. split_and!; try done.
      * by rewrite Hcc.
      * intros Hel. rewrite Hcc in Hel. exfalso. set_solver.
      * intros _. exists d, name. by rewrite Hd.
    + eexists _, _. split; [reflexivity|]. simpl. split_and!; try done.
      exists r. split_and!; try done.
      * by rewrite Hcc.
      * intros Hel. rewrite Hcc in Hel. exfalso. set_solver.
      * intros _. eexists d, _. by rewrite Hd.
Qed.

(** The loop, from any state whose pending ids are keys of replayable
    rows: with one unit of fuel more than pending ids it ends, having
    fetched the ids in list order and sent one message per id and then
    [pause_replay]. *)
Lemma wait_then_send_runs table ids : forall s fuel,
  log_record_ids s = ids ->
  Forall (fun pk => exists r, get_log_record table pk = Some r /\
                              replayable r) ids ->
  (length ids < fuel)%nat ->
  exists s' msgs,
    wait_then_send fuel table s = Finished s' /\
    log_record_ids s' = [] /\
    fetched s' = fetched s ++ ids /\
    sent s' = sent s ++ msgs ++ [{[ "eventtype" := JStr "pause_replay" ]}] /\
    Forall2 (replays table) ids msgs.
Proof.
  induction ids as [|pk rest IH]; intros s fuel Hids Hall Hfuel.
  - destruct fuel as [|fuel]; [simpl in Hfuel; lia|].
    simpl. rewrite Hids. eexists _, []. split; [reflexivity|]. simpl.
    rewrite app_nil_r. by split_and!.
  - destruct fuel as [|fuel]; [simpl in Hfuel; lia|].
    apply Forall_cons in Hall as [(r & Hget & Hrep) Hall].
    destruct (send_next_event_replayable table s pk rest r Hids Hget Hrep)
      as (s1 & msg & Hstep & Hids1 & Hf1 & Hs1 & Hmsg).
    destruct (IH s1 fuel Hids1 Hall) as (s' & msgs & Hrun & He & Hf & Hs & H2);
      [simpl in Hfuel; lia|].
    exists s', (msg :: msgs). simpl. rewrite Hids, Hstep.
    split_and!; try done.
    + by rewrite Hf, Hf1, <- app_assoc.
    + by rewrite Hs, Hs1, <- app_assoc.
    + by constructor.
Qed.

(** Neither the query nor a lookup reads [created_at]. *)
Lemma get_log_record_ids_retime f table room_name :
  get_log_record_ids_for_room (retime f table) room_name
  = get_log_record_ids_for_room table room_name.
Proof.
  unfold get_log_record_ids_for_room, retime. f_equal.
  induction table as [|r t IH]; [done|].
  rewrite fmap_cons. cbn [List.filter rec_room_name].
  destruct (String.eqb _ _); rewrite ?fmap_cons; cbn [rec_id];
    by rewrite IH.
Qed.

Lemma get_log_record_retime f table pk :
  get_log_record (retime f table) pk
  = (fun r => mkLogRecord (rec_id r) (rec_room_name r) (rec_event_type r)
                (rec_user_pseudonym r) (f r) (rec_content r))
      <$> get_log_record table pk.
Proof.
  unfold get_log_record, retime.
  induction table as [|r t IH]; [done|].
  rewrite fmap_cons. cbn [find rec_id].
  destruct (rec_id r =? pk); [done | exact IH].
Qed.

Lemma send_next_event_retime f table s :
  send_next_event (retime f table) s = send_next_event table s.
Proof.
  unfold send_next_event. destruct (log_record_ids s) as [|pk rest]; [done|].
  rewrite get_log_record_retime.
  by destruct (get_log_record table pk).
Qed.

Lemma wait_then_send_retime f table fuel : forall s,
  wait_then_send fuel (retime f table) s = wait_then_send fuel table s.
Proof.
  induction fuel as [|fuel IH]; intros s; [done|]. simpl.
  rewrite send_next_event_retime.
  destruct (log_record_ids s); [done|].
  destruct (send_next_event table s); [apply IH | done].
Qed.

End ReplayOrder.

(** C10.  The replay of a room fetches and sends the room's log records in
    ascending order of their ids, whatever their [created_at] values: the
    id list loaded by [init_replay] is sorted and holds exactly the ids of
    the room's rows; the playback loop ends after fetching the ids in that
    order and sending, between [reset_scene] and [pause_replay], one
    message per id, the replay of that row; and a table that differs only
    in [created_at] is replayed identically. *)
Theorem replay_in_ascending_id_order table s fuel :
  Forall replayable table ->
  (length (get_log_record_ids_for_room table (replay_room_name s)) < fuel)%nat ->
  let ids := get_log_record_ids_for_room table (replay_room_name s) in
  Sorted Z.le ids /\
  (NoDup (rec_id <$> table) -> StronglySorted Z.lt ids) /\
  ids ≡ₚ rec_id <$>
          List.filter
            (fun r => String.eqb (rec_room_name r) (replay_room_name s)) table /\
  (exists s' msgs,
     Replay.wait_then_send fuel table (Replay.init_replay table s)
     = Finished s' /\
     fetched s' = fetched s ++ ids /\
     sent s' = sent s ++ [{[ "eventtype" := JStr "reset_scene" ]}] ++ msgs
                      ++ [{[ "eventtype" := JStr "pause_replay" ]}] /\
     Forall2 (replays table) ids msgs) /\
  (forall f,
     Replay.wait_then_send fuel (retime f table)
       (Replay.init_replay (retime f table) s)
     = Replay.wait_then_send fuel table (Replay.init_replay table s)).
Proof.
  intros Hrep Hfuel ids. split_and!.
  - apply get_log_record_ids_sorted.
  - apply get_log_record_ids_strictly_ascending.
  - apply get_log_record_ids_Permutation.
  - destruct (wait_then_send_runs table ids (Replay.init_replay table s) fuel)
      as (s' & msgs & Hrun & _ & Hf & Hs & H2); [done | | done |].
    + apply Forall_forall. intros pk Hpk.
      destruct (get_log_record_of_listed_id table _ pk Hpk) as (r & Hget & Hr).
      exists r. split; [done|].
      by apply (proj1 (Forall_forall _ _) Hrep r).
    + exists s', msgs. split_and!; try done.
      rewrite Hs. simpl. by rewrite <- app_assoc.
  - intros f. rewrite wait_then_send_retime. unfold Replay.init_replay.
    by rewrite get_log_record_ids_retime.
Qed.

(** The sample log: ids 1, 2, 3 are fetched in that order. *)
Lemma replay_in_ascending_id_order_witness :
  exists s' msgs,
    Replay.wait_then_send 4 Samples.log123
      (Replay.init_replay Samples.log123 Samples.observer) = Finished s' /\
    fetched s' = [1; 2; 3] /\
    sent s' = [{[ "eventtype" := JStr "reset_scene" ]}] ++ msgs
              ++ [{[ "eventtype" := JStr "pause_replay" ]}] /\
    Forall2 (replays Samples.log123) [1; 2; 3] msgs.
Proof.
  assert (Hrep : Forall replayable Samples.log123).
  { unfold Samples.log123.
    apply Forall_cons; split;
      [left; apply elem_of_cons; right; apply elem_of_cons; by left|].
    apply Forall_cons; split; [right; split; [done | by eexists]|].
    apply Forall_cons; split; [left; apply elem_of_cons; by left|].
    apply Forall_cons; split; [left; apply elem_of_cons; by left|].
    by apply Forall_nil. }
  assert (Hfuel : (length (get_log_record_ids_for_room Samples.log123
                             (replay_room_name Samples.observer)) < 4)%nat)
    by (vm_compute; lia).
  destruct (replay_in_ascending_id_order Samples.log123 Samples.observer 4
              Hrep Hfuel) as (_ & _ & _ & Hrun & _).
  exact Hrun.
Defined.

(** The sample log replayed: rows 1, 2, 3 in that order, although their
    [created_at] values run the other way and row 3 is stored last. *)
Example replay_log123 :
  match Replay.wait_then_send 4 Samples.log123
          (Replay.init_replay Samples.log123 Samples.observer) with
  | Finished s' => (fetched s', sent s')
  | _ => ([], [])
  end
  = ([1; 2; 3],
     [ {[ "eventtype" := JStr "reset_scene" ]};
       {[ "eventtype" := JStr "elements_changed";
          "elements" := JList [JInt 10] ]};
       {[ "eventtype" := JStr "collaborator_change";
          "changes" :=
            JList [JDict {[ "pointer" := JInt 7;
                            "username" := JStr "Jane Doe";
                            "userRoomId" := JStr "pseudonym-bob" ]}] ]};
       {[ "eventtype" := JStr "full_sync"; "elements" := JList [JInt 30] ]};
       {[ "eventtype" := JStr "pause_replay" ]} ]).
Proof. by vm_compute. Qed.

(** * Further properties of the reconciler *)

Section ReconcilerDecision.

Implicit Types (rooms : RoomTable) (elements old : list Element).
Implicit Types (versions : gmap string Z) (e : Element).

(** What the loop computes: it runs to its end exactly when no element is
    older than stored, and then reports whether some element is newer. *)
Lemma compare_versions_spec versions elements d b :
  compare_versions versions elements d = Some b <->
  (forall e, e ∈ elements -> default (-1) (versions !! eid e) <= version e) /\
  b = d || existsb (fun e => default (-1) (versions !! eid e) <? version e)
              elements.
Proof.
  revert d. induction elements as [|x rest IH]; intros d; simpl.
  - rewrite orb_false_r. split.
    + intros [= <-]. split; [|done]. intros e He. by apply elem_of_nil in He.
    + by intros [_ ->].
  - destruct (default (-1) (versions !! eid x) >? version x) eqn:Hgt.
    + split; [done|]. intros [Hall _].
      specialize (Hall x (list_elem_of_here _ _)). lia.
    + rewrite IH, orb_assoc. split.
      * intros [Hall ->]. split; [|done].
        intros e He. apply elem_of_cons in He as [->|He]; [lia | by apply Hall].
      * intros [Hall ->]. split; [|done].
        intros e He. apply Hall. by right.
Qed.

Lemma filter_not_deleted_nil elements :
  (forall e, e ∈ elements -> not_deleted e = false) ->
  List.filter not_deleted elements = [].
Proof.
  induction elements as [|x rest IH]; intros H; [done|]. simpl.
  rewrite (H x) by left. apply IH. intros e He. apply H. by right.
Qed.

End ReconcilerDecision.

(** X1.  [save_room] issues the update exactly when the room's row already
    exists, no incoming element that is not deleted is older than the
    version stored for its id (ids not stored count as version -1), and at
    least one such element is newer. *)
Theorem save_room_writes_iff room_name elements rooms :
  (save_room room_name elements rooms).2 = true <->
  exists old,
    rooms !! room_name = Some old /\
    (forall e, e ∈ elements -> not_deleted e = true ->
       default (-1) (old_room_versions old !! eid e) <= version e) /\
    (exists e, e ∈ elements /\ not_deleted e = true /\
       default (-1) (old_room_versions old !! eid e) < version e).
Proof.
  destruct (rooms !! room_name) as [old|] eqn:Hr.
  - rewrite (save_room_existing _ _ _ _ Hr).
    destruct (compare_versions _ _ _) as [b|] eqn:Hc.
    + apply compare_versions_spec in Hc as [Hall ->]. simpl.
      destruct (existsb _ _) eqn:Hex; simpl.
      * split; [intros _ | done]. exists old. split; [done|]. split.
        -- intros e He Hnd. apply Hall. by apply elem_of_filter_not_deleted.
        -- apply existsb_exists in Hex as (e & He & Hlt).
           apply list_elem_of_In, elem_of_filter_not_deleted in He as [He Hnd].
           exists e. split_and!; [done | done | lia].
      * split; [done|]. intros (old' & [= <-] & _ & e & He & Hnd & Hlt).
        assert (existsb (fun e => default (-1) (old_room_versions old !! eid e)
                                  <? version e)
                  (List.filter not_deleted elements) = true) as Hex'.
        { apply existsb_exists. exists e. split; [|lia].
          by apply list_elem_of_In, elem_of_filter_not_deleted. }
        congruence.
    + simpl. split; [done|]. intros (old' & [= <-] & Hall & _).
      assert (is_Some (compare_versions (old_room_versions old)
                         (List.filter not_deleted elements) false)) as [b Hb].
      { eexists. apply compare_versions_spec. split; [|reflexivity].
        intros e He. apply elem_of_filter_not_deleted in He as [He Hnd].
        by apply Hall. }
      congruence.
  - rewrite (save_room_created _ _ _ Hr). simpl. split; [done|].
    by intros (old & ? & _).
Qed.

(** X2.  No-op on equality: on an existing room, when every incoming
    element that is not deleted carries exactly the version stored for its
    id, the table is left as it is and no update is issued. *)
Theorem save_room_equal_versions_noop room_name elements rooms old :
  rooms !! room_name = Some old ->
  (forall e, e ∈ elements -> not_deleted e = true ->
     old_room_versions old !! eid e = Some (version e)) ->
  save_room room_name elements rooms = (rooms, false).
Proof.
  intros Hr Heq. rewrite (save_room_existing _ _ _ _ Hr).
  destruct (compare_versions _ _ _) as [[]|] eqn:Hc; try done.
  apply compare_versions_spec in Hc as [_ Hb]. simpl in Hb.
  symmetry in Hb. apply existsb_exists in Hb as (e & He & Hlt).
  apply list_elem_of_In, elem_of_filter_not_deleted in He as [He Hnd].
  rewrite (Heq e He Hnd) in Hlt. simpl in Hlt. lia.
Qed.

(** [{A: 5}] stored and submitted again, next to a tombstone. *)
Lemma save_room_equal_versions_noop_witness :
  save_room "room" [Samples.A5; Samples.C1_deleted] Samples.room_A5
  = (Samples.room_A5, false).
Proof.
  apply (save_room_equal_versions_noop "room" _ _ [Samples.A5]).
  - reflexivity.
  - intros e He Hnd.
    apply elem_of_cons in He as [-> | He]; [reflexivity|].
    apply elem_of_cons in He as [-> | He]; [discriminate|].
    by apply elem_of_nil in He.
Defined.

(** X3.  A submission without a live element (empty, or tombstones only)
    never changes an existing room: the stored elements cannot be cleared
    through [save_room]. *)
Theorem save_room_only_tombstones_noop room_name elements rooms old :
  rooms !! room_name = Some old ->
  (forall e, e ∈ elements -> not_deleted e = false) ->
  save_room room_name elements rooms = (rooms, false).
Proof.
  intros Hr Hdel. rewrite (save_room_existing _ _ _ _ Hr).
  by rewrite (filter_not_deleted_nil _ Hdel).
Qed.

(** [{A: 5}] stored, only a tombstone submitted. *)
Lemma save_room_only_tombstones_noop_witness :
  save_room "room" [Samples.C1_deleted] Samples.room_A5
  = (Samples.room_A5, false).
Proof.
  apply (save_room_only_tombstones_noop "room" _ _ [Samples.A5]).
  - reflexivity.
  - intros e He. apply elem_of_cons in He as [-> | He]; [reflexivity|].
    by apply elem_of_nil in He.
Defined.

(** X4.  On an existing room, submitting the same collection a second
    time leaves the table as the first submission left it. *)
Theorem save_room_twice_existing room_name elements rooms old :
  rooms !! room_name = Some old ->
  (save_room room_name elements (save_room room_name elements rooms).1).1
  = (save_room room_name elements rooms).1.
Proof.
  intros Hr.
  assert (Hfirst : (save_room room_name elements rooms).1 = rooms \/
                   (save_room room_name elements rooms).1
                   = <[room_name := List.filter not_deleted elements]> rooms).
  { rewrite (save_room_existing _ _ _ _ Hr).
    destruct (compare_versions _ _ _) as [[]|]; simpl; auto. }
  destruct Hfirst as [H | H]; rewrite H; [by rewrite H|].
  rewrite (save_room_existing _ _ _ (List.filter not_deleted elements))
    by apply lookup_insert_eq.
  destruct (compare_versions _ _ _) as [[]|]; simpl; try done.
  apply insert_insert_eq.
Qed.

(** [{A: 5}] stored, [{B: 1}] submitted twice. *)
Lemma save_room_twice_existing_witness :
  (save_room "room" [Samples.B1]
     (save_room "room" [Samples.B1] Samples.room_A5).1).1
  = (save_room "room" [Samples.B1] Samples.room_A5).1.
Proof.
  apply (save_room_twice_existing "room" [Samples.B1] Samples.room_A5
           [Samples.A5]).
  reflexivity.
Defined.

(** X5.  Whatever is submitted, the room has a row afterwards and the rows
    of all other rooms are exactly as before. *)
Theorem save_room_touches_one_row room_name elements rooms :
  is_Some ((save_room room_name elements rooms).1 !! room_name) /\
  (forall r, r <> room_name ->
     (save_room room_name elements rooms).1 !! r = rooms !! r).
Proof.
  split; [|intros r Hne; by apply save_room_other].
  destruct (save_room_snapshot room_name elements rooms)
    as [[Heq Hsome] | [[Heq _] | [Heq _]]]; unfold snapshot in *; simpl in Heq;
    rewrite Heq; eauto.
Qed.

(** [save_room] on room "room" next to a row of room "other". *)
Lemma save_room_touches_one_row_witness :
  (save_room "room" [Samples.B1]
     (<["other" := [Samples.A1]]> Samples.room_A5)).1 !! "other"
  = Some [Samples.A1].
Proof.
  destruct (save_room_touches_one_row "room" [Samples.B1]
              (<["other" := [Samples.A1]]> Samples.room_A5)) as [_ H].
  rewrite (H "other"); [reflexivity | discriminate].
Defined.

(** X6.  An id that is not stored is compared as version -1: an incoming
    live element with an unknown id and a version below -1 vetoes the whole
    submission. *)
Theorem save_room_unknown_id_below_sentinel
        room_name elements rooms old e :
  rooms !! room_name = Some old ->
  e ∈ elements -> not_deleted e = true ->
  old_room_versions old !! eid e = None -> version e < -1 ->
  save_room room_name elements rooms = (rooms, false).
Proof.
  intros Hr He Hnd Hnone Hlt. rewrite (save_room_existing _ _ _ _ Hr).
  rewrite (compare_versions_stale _ _ _ e); [done | | by rewrite Hnone].
  by apply elem_of_filter_not_deleted.
Qed.

(** A new element B with version -2 next to a newer A. *)
Lemma save_room_unknown_id_below_sentinel_witness :
  save_room "room" [mkElement "A" 6 None; mkElement "B" (-2) None]
    Samples.room_A5
  = (Samples.room_A5, false).
Proof.
  apply (save_room_unknown_id_below_sentinel "room" _ _ [Samples.A5]
           (mkElement "B" (-2) None)).
  - reflexivity.
  - apply elem_of_cons. right. apply elem_of_cons. by left.
  - reflexivity.
  - reflexivity.
  - simpl. lia.
Defined.

(** * Further properties of sessions and broadcasts *)

Section Sessions.

Implicit Types (w : World) (self : Consumer) (ch g : string).

Lemma members_group_add g ch w g' :
  members (group_add g ch w) g' =
  if decide (g = g') then {[ch]} ∪ members w g else members w g'.
Proof.
  unfold group_add, members at 1. simpl. destruct (decide (g = g')) as [->|Hne].
  - by rewrite lookup_insert_eq.
  - by rewrite lookup_insert_ne.
Qed.

Lemma members_group_discard g ch w g' :
  members (group_discard g ch w) g' =
  if decide (g = g') then members w g ∖ {[ch]} else members w g'.
Proof.
  unfold group_discard, members at 1. simpl.
  destruct (decide (g = g')) as [->|Hne].
  - by rewrite lookup_insert_eq.
  - by rewrite lookup_insert_ne.
Qed.

Lemma members_send_event self eventtype event_args w g :
  members (send_event self eventtype event_args w) g = members w g.
Proof.
  unfold send_event, members.
  match goal with |- context [group_send ?g0 ?e w] =>
    destruct (group_send_frame g0 e w) as (_ & _ & _ & -> & _)
  end. done.
Qed.

Lemma frames_send_event self eventtype event_args w ch :
  frames (send_event self eventtype event_args w) ch =
  if decide (ch ∈ members w (group_name self) /\ channel_name self <> ch)
  then frames w ch
       ++ [SendJson (event_args ∪ {[ "eventtype" := JStr eventtype ]})]
  else frames w ch.
Proof. unfold send_event. by rewrite group_send_frames. Qed.

Lemma frames_super_disconnect c code w ch :
  frames (super_disconnect c code w) ch =
  if decide (c = ch) then frames w c ++ [Close code] else frames w ch.
Proof.
  unfold super_disconnect, frames at 1. simpl.
  destruct (decide (c = ch)) as [->|Hne].
  - by rewrite lookup_insert_eq.
  - by rewrite lookup_insert_ne.
Qed.

Lemma frames_super_connect c w ch :
  frames (super_connect c w) ch =
  if decide (c = ch) then frames w c ++ [Accept] else frames w ch.
Proof.
  unfold super_connect, frames at 1. simpl.
  destruct (decide (c = ch)) as [->|Hne].
  - by rewrite lookup_insert_eq.
  - by rewrite lookup_insert_ne.
Qed.

(** The world after an admitted [connect]. *)
Lemma connect_admitted allow authenticated authorized pseudonym self w :
  negb allow && negb authenticated && negb authorized = false ->
  connect allow authenticated authorized pseudonym self w =
  Some (mkConsumer (channel_name self) (self_room_name self) (Some pseudonym),
        super_connect (channel_name self)
          (group_add (group_name self) (channel_name self)
             (set_rooms
                (get_or_create_room (self_room_name self) (rooms w)).2 w))).
Proof. intros H. unfold connect. by rewrite H. Qed.

(** The world after a [disconnect] that tells the peers. *)
Lemma disconnect_admitted self uid code w :
  user_room_id self = Some uid -> code <> 3000 ->
  disconnect self code w =
  Some (super_disconnect (channel_name self) code
          (group_discard (group_name self) (channel_name self)
             (send_event self "collaborator_left"
                {[ "collaborator" := JDict {[ "userRoomId" := JStr uid ]} ]}
                w))).
Proof.
  intros Huid Hcode. unfold disconnect.
  rewrite decide_True by done. by rewrite Huid.
Qed.

End Sessions.

(** X7.  A visitor who is let in (anonymous visits allowed, or
    authenticated, or authorized) gets the computed pseudonym, the channel
    joins the room's group and no other group, the socket is accepted, and
    nothing is broadcast or logged. *)
Theorem connect_admitted_joins_group
        allow authenticated authorized pseudonym self w :
  negb allow && negb authenticated && negb authorized = false ->
  exists self' w',
    connect allow authenticated authorized pseudonym self w = Some (self', w') /\
    user_room_id self' = Some pseudonym /\
    channel_name self' = channel_name self /\
    members w' (group_name self)
      = {[channel_name self]} ∪ members w (group_name self) /\
    (forall g, g <> group_name self -> members w' g = members w g) /\
    transport w' = <[channel_name self := frames w (channel_name self)
                                          ++ [Accept]]> (transport w) /\
    group_sends w' = group_sends w /\
    log_records w' = log_records w.
Proof.
  intros H. eexists _, _. split; [by apply connect_admitted|].
  split_and!; try done.
  - unfold super_connect, members. simpl. by rewrite lookup_insert_eq.
  - intros g Hne. unfold super_connect, members. simpl.
    by rewrite lookup_insert_ne.
Qed.

(** A visitor admitted because anonymous visits are allowed. *)
Lemma connect_admitted_joins_group_witness :
  exists self' w',
    connect true false false "pseudonym-visitor" Samples.visitor Samples.world0
    = Some (self', w') /\
    user_room_id self' = Some "pseudonym-visitor" /\
    members w' "draw_room_room"
    = {[ "chan.visitor" ]} ∪ {[ "chan.alice"; "chan.bob" ]}.
Proof.
  destruct (connect_admitted_joins_group true false false "pseudonym-visitor"
              Samples.visitor Samples.world0 eq_refl)
    as (self' & w' & Hc & Hu & _ & Hm & _).
  exists self', w'. split; [exact Hc|]. split; [exact Hu|]. exact Hm.
Defined.

(** X8.  Once admitted, a session receives what any other session of the
    same room broadcasts. *)
Theorem connect_then_receives_broadcasts
        allow authenticated authorized pseudonym self w self' w'
        peer eventtype event_args :
  connect allow authenticated authorized pseudonym self w = Some (self', w') ->
  negb allow && negb authenticated && negb authorized = false ->
  self_room_name peer = self_room_name self ->
  channel_name peer <> channel_name self ->
  frames (send_event peer eventtype event_args w') (channel_name self)
  = frames w' (channel_name self)
    ++ [SendJson (event_args ∪ {[ "eventtype" := JStr eventtype ]})].
Proof.
  intros Hc Hadm Hroom Hch.
  rewrite (connect_admitted _ _ _ _ _ _ Hadm) in Hc. injection Hc as _ <-.
  rewrite frames_send_event. rewrite decide_True; [done|]. split; [|done].
  unfold super_connect, members. simpl.
  replace (group_name peer) with (group_name self)
    by (unfold group_name; by rewrite Hroom).
  rewrite lookup_insert_eq. simpl. apply elem_of_union_l.
  by apply elem_of_singleton.
Qed.

(** The visitor is admitted and then Alice broadcasts. *)
Lemma connect_then_receives_broadcasts_witness :
  exists self' w',
    connect true false false "pseudonym-visitor" Samples.visitor Samples.world0
    = Some (self', w') /\
    frames (send_event Samples.alice "elements_changed"
              {[ "elements" := JList [] ]} w') "chan.visitor"
    = frames w' "chan.visitor"
      ++ [SendJson ({[ "elements" := JList [] ]}
                      ∪ {[ "eventtype" := JStr "elements_changed" ]})].
Proof.
  destruct (connect true false false "pseudonym-visitor" Samples.visitor
              Samples.world0) as [[self' w']|] eqn:Hc;
    [|by vm_compute in Hc].
  exists self', w'. split; [reflexivity|].
  apply (connect_then_receives_broadcasts true false false "pseudonym-visitor"
           Samples.visitor Samples.world0 self' w' Samples.alice
           "elements_changed" {[ "elements" := JList [] ]} Hc).
  - reflexivity.
  - reflexivity.
  - discriminate.
Defined.

(** X9.  When an admitted session closes with a code other than 3000,
    every other member of the room's group is sent [collaborator_left] with
    the leaver's pseudonym, the channel leaves the group, and the
    connection is torn down with that code. *)
Theorem disconnect_notifies_and_leaves self uid code w :
  user_room_id self = Some uid -> code <> 3000 ->
  exists w',
    disconnect self code w = Some w' /\
    members w' (group_name self)
      = members w (group_name self) ∖ {[channel_name self]} /\
    frames w' (channel_name self) = frames w (channel_name self) ++ [Close code] /\
    (forall ch, ch ∈ members w (group_name self) -> ch <> channel_name self ->
       frames w' ch =
       frames w ch
       ++ [SendJson ({[ "collaborator" :=
                          JDict {[ "userRoomId" := JStr uid ]} ]}
                       ∪ {[ "eventtype" := JStr "collaborator_left" ]})]).
Proof.
  intros Huid Hcode. eexists. split; [by apply disconnect_admitted|].
  split_and!.
  - unfold super_disconnect, members at 1. simpl.
    rewrite lookup_insert_eq. simpl.
    fold (members (send_event self "collaborator_left"
            {[ "collaborator" := JDict {[ "userRoomId" := JStr uid ]} ]} w)
            (group_name self)).
    by rewrite members_send_event.
  - rewrite frames_super_disconnect, decide_True by done.
    unfold group_discard, frames at 1. simpl.
    fold (frames (send_event self "collaborator_left"
            {[ "collaborator" := JDict {[ "userRoomId" := JStr uid ]} ]} w)
            (channel_name self)).
    rewrite frames_send_event, decide_False; [done | tauto].
  - intros ch Hin Hne.
    rewrite frames_super_disconnect, decide_False by done.
    unfold group_discard, frames at 1. simpl.
    fold (frames (send_event self "collaborator_left"
            {[ "collaborator" := JDict {[ "userRoomId" := JStr uid ]} ]} w) ch).
    rewrite frames_send_event, decide_True; [done|]. split; [done | congruence].
Qed.

(** Bob leaves with code 1001; Alice is told. *)
Lemma disconnect_notifies_and_leaves_witness :
  exists w',
    disconnect Samples.bob 1001 Samples.world0 = Some w' /\
    frames w' "chan.bob" = [Close 1001] /\
    frames w' "chan.alice"
    = [SendJson ({[ "collaborator" :=
                      JDict {[ "userRoomId" := JStr "pseudonym-bob" ]} ]}
                   ∪ {[ "eventtype" := JStr "collaborator_left" ]})].
Proof.
  destruct (disconnect_notifies_and_leaves Samples.bob "pseudonym-bob" 1001
              Samples.world0 eq_refl)
    as (w' & Hd & _ & Hown & Hpeers); [discriminate|].
  exists w'. split; [exact Hd|]. split; [exact Hown|].
  apply (Hpeers "chan.alice"); [by vm_compute | discriminate].
Defined.

(** X10.  After an admitted session has left with a code other than 3000,
    nothing broadcast in its room reaches its connection any more. *)
Theorem disconnect_then_receives_nothing
        self uid code w w' peer eventtype event_args :
  user_room_id self = Some uid -> code <> 3000 ->
  disconnect self code w = Some w' ->
  self_room_name peer = self_room_name self ->
  frames (send_event peer eventtype event_args w') (channel_name self)
  = frames w' (channel_name self).
Proof.
  intros Huid Hcode Hd Hroom.
  rewrite (disconnect_admitted _ _ _ _ Huid Hcode) in Hd. injection Hd as <-.
  rewrite frames_send_event, decide_False; [done|]. intros [Hin _].
  replace (group_name peer) with (group_name self) in Hin
    by (unfold group_name; by rewrite Hroom).
  unfold super_disconnect, members in Hin. simpl in Hin.
  rewrite lookup_insert_eq in Hin. simpl in Hin.
  apply elem_of_difference in Hin as [_ Hin]. apply Hin.
  by apply elem_of_singleton.
Qed.

(** Bob leaves; Alice's next broadcast does not reach him. *)
Lemma disconnect_then_receives_nothing_witness :
  exists w',
    disconnect Samples.bob 1001 Samples.world0 = Some w' /\
    frames (send_event Samples.alice "elements_changed" ∅ w') "chan.bob"
    = frames w' "chan.bob".
Proof.
  destruct (disconnect Samples.bob 1001 Samples.world0) as [w'|] eqn:Hd;
    [|by vm_compute in Hd].
  exists w'. split; [reflexivity|].
  apply (disconnect_then_receives_nothing Samples.bob "pseudonym-bob" 1001
           Samples.world0 w' Samples.alice "elements_changed" ∅);
    [reflexivity | discriminate | exact Hd | reflexivity].
Defined.

(** X11.  [disconnect] raises exactly when the code is not 3000 and the
    session was never admitted (it has no pseudonym to announce): the
    teardown of a rejected visitor with any other code fails. *)
Theorem disconnect_succeeds_iff self code w :
  is_Some (disconnect self code w) <->
  code = 3000 \/ is_Some (user_room_id self).
Proof.
  unfold disconnect. destruct (decide (code <> 3000)) as [Hne|Heq].
  - destruct (user_room_id self) as [uid|]; simpl.
    + split; [intros _; right; eauto | eauto].
    + split; [by intros [? ?]|]. intros [? | [? ?]]; done.
  - simpl. split; [intros _; left; lia | eauto].
Qed.

(** X12.  A broadcast stays in its room: a connection that is not in the
    sender's group sees no frame, and neither the groups nor the two tables
    change. *)
Theorem send_event_stays_in_room self eventtype event_args w :
  let w' := send_event self eventtype event_args w in
  (forall ch, ch ∉ members w (group_name self) -> frames w' ch = frames w ch) /\
  groups w' = groups w /\ rooms w' = rooms w /\
  log_records w' = log_records w.
Proof.
  simpl. split.
  - intros ch Hnotin. rewrite frames_send_event, decide_False; [done | tauto].
  - unfold send_event.
    match goal with |- context [group_send ?g0 ?e w] =>
      destruct (group_send_frame g0 e w) as (-> & -> & _ & -> & _)
    end. done.
Qed.

(** Alice's broadcast in "room" and a connection of another room. *)
Lemma send_event_stays_in_room_witness :
  frames (send_event Samples.alice "elements_changed" ∅ Samples.world0)
         "chan.elsewhere"
  = frames Samples.world0 "chan.elsewhere".
Proof.
  destruct (send_event_stays_in_room Samples.alice "elements_changed" ∅
              Samples.world0) as [H _].
  apply H. by vm_compute.
Defined.

(** * Further properties of the event handlers and the log *)

Section Handlers.

Implicit Types (w : World) (self : Consumer) (change : dict).

(** A bulk insert appends one row per record, in order, under the next
    primary keys, and touches nothing but the log table and its counter. *)
Lemma bulk_create_records_rows records w :
  exists new,
    log_records (bulk_create_records records w) = log_records w ++ new /\
    Forall2 saved_from records new /\
    rec_id <$> new = seqZ (last_record_id w + 1) (Z.of_nat (length records)) /\
    last_record_id (bulk_create_records records w)
      = last_record_id w + Z.of_nat (length records) /\
    rooms (bulk_create_records records w) = rooms w /\
    groups (bulk_create_records records w) = groups w /\
    group_sends (bulk_create_records records w) = group_sends w /\
    transport (bulk_create_records records w) = transport w.
Proof.
  unfold bulk_create_records. revert w.
  induction records as [|nr rest IH]; intros w.
  - exists []. simpl. rewrite app_nil_r, Z.add_0_r. by split_and!.
  - cbn [foldl]. destruct (IH (create_record nr w))
      as (new & Hlog & Hall & Hids & Hlast & Hr & Hg & Hs & Ht).
    exists (mkLogRecord (last_record_id w + 1) (new_room_name nr)
              (new_event_type nr) (new_user_pseudonym nr) (new_created_at nr)
              (new_content nr) :: new).
    rewrite Hlog, Hlast, Hr, Hg, Hs, Ht, fmap_cons, Hids.
    cbn [create_record set_log log_records last_record_id rooms groups
         group_sends transport rec_id length].
    rewrite <- app_assoc. split; [done|]. split; [by constructor|].
    split; [|split; [lia | done]].
    rewrite (seqZ_cons _ (Z.of_nat (S _))) by lia.
    f_equal. f_equal; lia.
Qed.

(** What [strip_change] builds when it does not raise. *)
Lemma strip_change_Some room_name eventtype uid now change nr :
  strip_change room_name eventtype uid now change = Some nr ->
  new_room_name nr = room_name /\ new_event_type nr = eventtype /\
  new_user_pseudonym nr = uid /\
  new_created_at nr = stored_time now change /\
  new_content nr = JDict (delete "time" (delete "username" change)).
Proof.
  unfold strip_change, stored_time. intros H.
  destruct (change !! "username") as [u|]; [|done]. simpl in H.
  rewrite lookup_delete_ne in H by done.
  destruct (change !! "time") as [t|]; simpl in H.
  - destruct t as [|b|z|raw|l|d]; simpl in H.
    + injection H as <-. by split_and!.
    + destruct b; [done|]. injection H as <-. by split_and!.
    + destruct (negb (z =? 0)); [done|]. injection H as <-. by split_and!.
    + destruct (String.eqb raw ""); simpl in H; injection H as <-;
        by split_and!.
    + destruct l; [|done]. injection H as <-. by split_and!.
    + destruct (map_to_list d); [|done]. injection H as <-. by split_and!.
  - injection H as <-. by split_and!.
Qed.

(** When [strip_change] raises. *)
Lemma strip_change_is_Some room_name eventtype uid now change :
  is_Some (strip_change room_name eventtype uid now change) <->
  is_Some (change !! "username") /\ time_ok change.
Proof.
  unfold strip_change, time_ok.
  destruct (change !! "username") as [u|]; simpl;
    [|split; [by intros [? ?] | by intros [[? ?] _]]].
  rewrite lookup_delete_ne by done.
  destruct (change !! "time") as [t|]; simpl.
  - destruct (truthy t) eqn:Ht; simpl.
    + destruct t as [|b|z|raw|l|d]; simpl;
        try (split; [by intros [? ?] |
                     intros [_ H]; by destruct (H _ eq_refl Ht)]).
      split; [|eauto]. intros _. split; [eauto|].
      intros t [= <-] _. eauto.
    + split; [|eauto]. intros _. split; [eauto|].
      intros t' [= <-] Ht'. congruence.
  - split; [|eauto]. intros _. split; [eauto|]. by intros t.
Qed.

End Handlers.

(** X13.  [collaborator_change] raises, before anything is logged or
    broadcast, whenever the batch is empty, the session has no pseudonym,
    some change has no [username] key, or some change has a truthy [time]
    that is not a string: a batch that is handled has none of these. *)
Theorem collaborator_change_requires self room_name eventtype changes w w' :
  collaborator_change self room_name eventtype changes w = Some w' ->
  changes <> [] /\ is_Some (user_room_id self) /\
  Forall (fun change => is_Some (change !! "username") /\ time_ok change)
         changes.
Proof.
  unfold collaborator_change. intros H.
  destruct (last changes) as [last_change|] eqn:Hlast; [|done]. simpl in H.
  destruct (user_room_id self) as [uid|]; [|done]. simpl in H.
  destruct (mapM _ changes) as [records|] eqn:Hmap; [|done].
  split_and!.
  - apply last_is_Some. eauto.
  - eauto.
  - assert (Hsome : is_Some (mapM (strip_change room_name eventtype uid
                                     (clock w)) changes)) by eauto.
    apply mapM_is_Some in Hsome.
    eapply Forall_impl; [exact Hsome|]. intros change Hc.
    by apply strip_change_is_Some in Hc.
Qed.

(** Bob's pointer update is handled: it has a [username] and no [time]. *)
Lemma collaborator_change_requires_witness :
  [Samples.change_bob] <> [] /\
  is_Some (user_room_id Samples.alice) /\
  Forall (fun change => is_Some (change !! "username") /\ time_ok change)
         [Samples.change_bob].
Proof.
  destruct (collaborator_change Samples.alice "room" "collaborator_change"
              [Samples.change_bob] Samples.world0) as [w'|] eqn:Hc;
    [|by vm_compute in Hc].
  exact (collaborator_change_requires Samples.alice "room"
           "collaborator_change" [Samples.change_bob] Samples.world0 w' Hc).
Defined.

(** X14.  A batch that is handled adds one log row per change, in the
    order of the batch and under consecutive primary keys.  Each row names
    the room, the event type and the session's pseudonym, holds the change
    without its [username] and [time] entries, and is stamped with the
    client's [time] when that is a non-empty string and with the server's
    clock otherwise.  The Room table is not touched. *)
Theorem collaborator_change_log_rows
        self room_name eventtype changes w w' uid :
  user_room_id self = Some uid ->
  collaborator_change self room_name eventtype changes w = Some w' ->
  exists new,
    log_records w' = log_records w ++ new /\
    Forall2 (stored_as room_name eventtype uid (clock w)) changes new /\
    rec_id <$> new = seqZ (last_record_id w + 1) (Z.of_nat (length changes)) /\
    rooms w' = rooms w.
Proof.
  unfold collaborator_change. intros Huid H. rewrite Huid in H.
  destruct (last changes) as [last_change|]; [|done]. simpl in H.
  destruct (mapM _ changes) as [records|] eqn:Hmap; [|done]. simpl in H.
  injection H as <-. apply mapM_Some_1 in Hmap.
  destruct (bulk_create_records_rows records w)
    as (new & Hlog & Hsaved & Hids & _ & Hrooms & _).
  exists new. unfold send_event.
  match goal with |- context [group_send ?g ?e ?w0] =>
    destruct (group_send_frame g e w0) as (-> & -> & _)
  end.
  rewrite Hlog, Hrooms, Hids, (Forall2_length _ _ _ Hmap).
  split_and!; try done.
  clear -Hmap Hsaved. revert new Hsaved.
  induction Hmap as [|c nr cs nrs Hc _ IH]; intros new Hsaved.
  - apply Forall2_nil_inv_l in Hsaved as ->. constructor.
  - apply Forall2_cons_inv_l in Hsaved as (r & new' & Hr & Hrest & ->).
    constructor; [|by apply IH].
    apply strip_change_Some in Hc as (H1 & H2 & H3 & H4 & H5).
    destruct Hr as (G1 & G2 & G3 & G4 & G5).
    unfold stored_as. rewrite G1, G2, G3, G4, G5. by split_and!.
Qed.

(** Bob's pointer update sent through Alice's session. *)
Lemma collaborator_change_log_rows_witness :
  exists w' new,
    collaborator_change Samples.alice "room" "collaborator_change"
      [Samples.change_bob] Samples.world0 = Some w' /\
    log_records w' = [] ++ new /\
    Forall2 (stored_as "room" "collaborator_change" "pseudonym-alice" 1000)
            [Samples.change_bob] new /\
    rec_id <$> new = [1].
Proof.
  destruct (collaborator_change Samples.alice "room" "collaborator_change"
              [Samples.change_bob] Samples.world0) as [w'|] eqn:Hc;
    [|by vm_compute in Hc].
  destruct (collaborator_change_log_rows Samples.alice "room"
              "collaborator_change" [Samples.change_bob] Samples.world0 w'
              "pseudonym-alice" eq_refl Hc)
    as (new & Hlog & Hrows & Hids & _).
  exists w', new. split; [reflexivity|]. split; [exact Hlog|].
  split; [exact Hrows | exact Hids].
Defined.

(** X15.  [elements_changed] hands the collection on as it came: every
    other member of the room's group is sent one message whose [elements]
    entry is the submitted collection, the sender's own connection sees
    nothing, and the Room table is not touched. *)
Theorem elements_changed_delivers_verbatim
        self room_name eventtype elems kwargs w uid :
  user_room_id self = Some uid ->
  exists w' msg,
    elements_changed self room_name eventtype elems kwargs w = Some w' /\
    msg !! "elements" = Some elems /\
    frames w' (channel_name self) = frames w (channel_name self) /\
    (forall ch, ch ∈ members w (group_name self) -> ch <> channel_name self ->
       frames w' ch = frames w ch ++ [SendJson msg]) /\
    rooms w' = rooms w.
Proof.
  intros Huid. unfold elements_changed. rewrite Huid. simpl.
  eexists _, (<["elements" := elems]> kwargs ∪ {[ "eventtype" := JStr eventtype ]}).
  split; [reflexivity|]. split_and!.
  - apply lookup_union_Some_l, lookup_insert_eq.
  - unfold create_record, frames at 1. simpl.
    fold (frames (send_event self eventtype (<["elements" := elems]> kwargs) w)
            (channel_name self)).
    rewrite frames_send_event, decide_False; [done | tauto].
  - intros ch Hin Hne. unfold create_record, frames at 1. simpl.
    fold (frames (send_event self eventtype (<["elements" := elems]> kwargs) w)
            ch).
    rewrite frames_send_event, decide_True; [done|]. split; [done | congruence].
  - unfold create_record, send_event. simpl.
    match goal with |- context [group_send ?g ?e ?w0] =>
      destruct (group_send_frame g e w0) as (-> & _)
    end. done.
Qed.

(** Alice submits a collection; Bob's connection gets it. *)
Lemma elements_changed_delivers_verbatim_witness :
  exists w' msg,
    elements_changed Samples.alice "room" "elements_changed"
      (JList [JInt 1]) ∅ Samples.world0 = Some w' /\
    msg !! "elements" = Some (JList [JInt 1]) /\
    frames w' "chan.bob" = [SendJson msg].
Proof.
  destruct (elements_changed_delivers_verbatim Samples.alice "room"
              "elements_changed" (JList [JInt 1]) ∅ Samples.world0
              "pseudonym-alice" eq_refl)
    as (w' & msg & Hrun & Hmsg & _ & Hpeers & _).
  exists w', msg. split; [exact Hrun|]. split; [exact Hmsg|].
  apply (Hpeers "chan.bob"); [by vm_compute | discriminate].
Defined.

Section Invocations.

Implicit Types (w : World) (c : Call).

Lemma StronglySorted_seqZ m (k : nat) :
  StronglySorted Z.lt (seqZ m (Z.of_nat k)).
Proof.
  revert m. induction k as [|k IH]; intros m.
  - rewrite seqZ_nil by done. constructor.
  - rewrite seqZ_cons by lia.
    replace (Z.pred (Z.of_nat (S k))) with (Z.of_nat k) by lia.
    constructor; [apply IH|].
    apply Forall_forall. intros x Hx. apply elem_of_seqZ in Hx. lia.
Qed.

Lemma get_or_create_room_keeps room_name rooms r els :
  rooms !! r = Some els ->
  (get_or_create_room room_name rooms).2 !! r = Some els.
Proof.
  intros Hr. unfold get_or_create_room.
  destruct (rooms !! room_name) eqn:Hn; simpl; [done|].
  rewrite lookup_insert_ne; [done|]. intros ->. congruence.
Qed.

Lemma disconnect_tables self code w w' :
  disconnect self code w = Some w' ->
  log_records w' = log_records w /\ last_record_id w' = last_record_id w /\
  rooms w' = rooms w.
Proof.
  unfold disconnect. destruct (decide (code <> 3000)).
  - destruct (user_room_id self) as [uid|]; [|done]. simpl.
    intros [= <-]. unfold send_event. simpl.
    match goal with |- context [group_send ?g ?e ?w0] =>
      destruct (group_send_frame g e w0) as (-> & -> & -> & _)
    end. done.
  - simpl. by intros [= <-].
Qed.

Lemma connect_tables allow authenticated authorized pseudonym self w self' w' :
  connect allow authenticated authorized pseudonym self w = Some (self', w') ->
  log_records w' = log_records w /\ last_record_id w' = last_record_id w /\
  rooms w' = (get_or_create_room (self_room_name self) (rooms w)).2.
Proof.
  unfold connect.
  destruct (negb allow && negb authenticated && negb authorized).
  - destruct (disconnect self 3000 _) as [w1|] eqn:Hd; [|done]. simpl.
    intros [= _ <-]. by apply disconnect_tables in Hd as (-> & -> & ->).
  - by intros [= _ <-].
Qed.

(** What an invocation does to the log: it appends rows under the next
    primary keys, and the rows are replayable when the handler was given
    its own event type. *)
Lemma run_log c w w' :
  run c w = Some w' ->
  exists new,
    log_records w' = log_records w ++ new /\
    rec_id <$> new = seqZ (last_record_id w + 1) (Z.of_nat (length new)) /\
    last_record_id w' = last_record_id w + Z.of_nat (length new) /\
    (dispatched c -> Forall replayable new).
Proof.
  assert (Hnone : forall w1, log_records w1 = log_records w ->
            last_record_id w1 = last_record_id w ->
            exists new,
              log_records w1 = log_records w ++ new /\
              rec_id <$> new
                = seqZ (last_record_id w + 1) (Z.of_nat (length new)) /\
              last_record_id w1 = last_record_id w + Z.of_nat (length new) /\
              (dispatched c -> Forall replayable new)).
  { intros w1 Hl Hi. exists []. rewrite Hl, Hi, app_nil_r. simpl.
    split_and!; [done | done | lia | by constructor]. }
  assert (Hone : forall self room_name eventtype elems kwargs,
            (dispatched c -> eventtype ∈ ["full_sync"; "elements_changed"]) ->
            elements_changed self room_name eventtype elems kwargs w = Some w' ->
            exists new,
              log_records w' = log_records w ++ new /\
              rec_id <$> new
                = seqZ (last_record_id w + 1) (Z.of_nat (length new)) /\
              last_record_id w' = last_record_id w + Z.of_nat (length new) /\
              (dispatched c -> Forall replayable new)).
  { intros self room_name eventtype elems kwargs Hd H.
    unfold elements_changed in H.
    destruct (user_room_id self) as [uid|]; [|done]. simpl in H.
    injection H as <-. eexists [_]. unfold create_record, send_event. simpl.
    match goal with |- context [group_send ?g ?e ?w0] =>
      destruct (group_send_frame g e w0) as (_ & -> & -> & _)
    end.
    split_and!; [done | done | lia |].
    intros Hc. constructor; [|constructor]. left. by apply Hd. }
  destruct c as [a b d p self | self code | self room_name eventtype changes
                  | self room_name eventtype elems kwargs
                  | self room_name eventtype elems kwargs
                  | room_name elements]; simpl; intros H.
  - destruct (connect a b d p self w) as [[self' w1]|] eqn:Hc; [|done].
    injection H as <-.
    apply connect_tables in Hc as (Hl & Hi & _). by apply Hnone.
  - apply disconnect_tables in H as (Hl & Hi & _). by apply Hnone.
  - unfold collaborator_change in H.
    destruct (last changes) as [last_change|]; [|done]. simpl in H.
    destruct (user_room_id self) as [uid|]; [|done]. simpl in H.
    destruct (mapM _ changes) as [records|] eqn:Hmap; [|done]. simpl in H.
    injection H as <-. apply mapM_Some_1 in Hmap.
    destruct (bulk_create_records_rows records w)
      as (new & Hlog & Hsaved & Hids & Hlast & _).
    exists new. unfold send_event.
    match goal with |- context [group_send ?g ?e ?w0] =>
      destruct (group_send_frame g e w0) as (_ & -> & -> & _)
    end.
    rewrite Hlog, Hids, Hlast, (Forall2_length _ _ _ Hsaved).
    split_and!; try done.
    intros ->. clear -Hmap Hsaved. revert new Hsaved.
    induction Hmap as [|ch nr cs nrs Hc _ IH]; intros new Hsaved.
    + apply Forall2_nil_inv_l in Hsaved as ->. constructor.
    + apply Forall2_cons_inv_l in Hsaved as (r & new' & Hr & Hrest & ->).
      constructor; [|by apply IH].
      apply strip_change_Some in Hc as (_ & H2 & _ & _ & H5).
      destruct Hr as (_ & G2 & _ & _ & G5).
      right. rewrite G2, G5, H2, H5. eauto.
  - by apply (Hone self room_name eventtype elems kwargs).
  - apply (Hone self room_name eventtype elems kwargs); [|done].
    intros ->. apply elem_of_cons. by left.
  - injection H as <-. by apply Hnone.
Qed.

End Invocations.

Section LogOrder.

Implicit Types (w : World) (table : list LogRecord).

(** Along a table whose keys ascend, the keys of one room ascend too. *)
Lemma room_ids_sorted table room_name :
  StronglySorted Z.lt (rec_id <$> table) ->
  StronglySorted Z.le
    (rec_id <$>
       List.filter (fun r => String.eqb (rec_room_name r) room_name) table).
Proof.
  induction table as [|r t IH]; intros Hs; [constructor|].
  rewrite fmap_cons in Hs. apply StronglySorted_cons in Hs as [Hall Hs].
  simpl. destruct (String.eqb _ _); [|by apply IH].
  rewrite fmap_cons. constructor; [by apply IH|].
  apply Forall_forall. intros x Hx.
  apply list_elem_of_fmap in Hx as (y & -> & Hy).
  apply list_elem_of_In, filter_In in Hy as [Hy _].
  assert (rec_id r < rec_id y); [|lia].
  apply (proj1 (Forall_forall _ _) Hall).
  apply list_elem_of_fmap. exists y. split; [done|]. by apply list_elem_of_In.
Qed.

(** On such a table the query returns the room's keys in table order. *)
Lemma room_ids_in_table_order table room_name :
  StronglySorted Z.lt (rec_id <$> table) ->
  get_log_record_ids_for_room table room_name
  = rec_id <$>
      List.filter (fun r => String.eqb (rec_room_name r) room_name) table.
Proof.
  intros Hs. apply (StronglySorted_unique Z.le).
  - apply StronglySorted_merge_sort; apply _.
  - by apply room_ids_sorted.
  - apply merge_sort_Permutation.
Qed.

(** A row appended under a key above all others is found by that key. *)
Lemma get_log_record_appended table n r :
  Forall (fun x => rec_id x <= n) table -> n < rec_id r ->
  get_log_record (table ++ [r]) (rec_id r) = Some r.
Proof.
  unfold get_log_record. intros Hall Hlt.
  induction Hall as [|x t Hx _ IH]; simpl.
  - by rewrite Z.eqb_refl.
  - destruct (rec_id x =? rec_id r) eqn:Heq; [lia | exact IH].
Qed.

End LogOrder.

(** X16.  The log is append-only: whatever method of the collaboration
    consumer runs, the rows that were in the log are still there, unchanged
    and in the same order, followed by the rows it added. *)
Theorem run_log_append_only c w w' :
  run c w = Some w' ->
  exists new, log_records w' = log_records w ++ new.
Proof.
  intros H. destruct (run_log c w w' H) as (new & Hlog & _). eauto.
Qed.

(** A full sync by Alice. *)
Lemma run_log_append_only_witness :
  exists w' new,
    run (CallFullSync Samples.alice "room" "full_sync" (JList []) ∅)
        Samples.world0 = Some w' /\
    log_records w' = log_records Samples.world0 ++ new.
Proof.
  destruct (run (CallFullSync Samples.alice "room" "full_sync" (JList []) ∅)
              Samples.world0) as [w'|] eqn:Hr; [|by vm_compute in Hr].
  destruct (run_log_append_only _ _ _ Hr) as [new Hnew].
  exists w', new. split; [reflexivity | exact Hnew].
Defined.

(** X17.  Every method keeps the primary keys of the log strictly
    ascending in insertion order and at most the counter: a new row always
    gets a key above every earlier one. *)
Theorem run_keeps_log_ordered c w w' :
  log_ordered w -> run c w = Some w' -> log_ordered w'.
Proof.
  intros [Hs Hall] H.
  destruct (run_log c w w' H) as (new & Hlog & Hids & Hlast & _).
  unfold log_ordered. rewrite Hlog, Hlast, fmap_app, Hids. split.
  - apply StronglySorted_app. split_and!; [|done|apply StronglySorted_seqZ].
    intros x1 x2 Hx1 Hx2. apply elem_of_seqZ in Hx2.
    apply list_elem_of_fmap in Hx1 as (r & -> & Hr).
    pose proof (proj1 (Forall_forall _ _) Hall r Hr). simpl in *. lia.
  - apply Forall_app. split.
    + eapply Forall_impl; [exact Hall|]. simpl. intros r Hr. lia.
    + apply Forall_forall. intros r Hr.
      assert (rec_id r ∈ rec_id <$> new) as Hin
        by (apply list_elem_of_fmap; eauto).
      rewrite Hids in Hin. apply elem_of_seqZ in Hin. lia.
Qed.

(** Two pointer updates logged on an empty log get keys 1 and 2. *)
Lemma run_keeps_log_ordered_witness :
  exists w',
    run (CallCollaboratorChange Samples.alice "room" "collaborator_change"
           [Samples.change_bob; Samples.change_bob]) Samples.world0 = Some w' /\
    log_ordered w'.
Proof.
  destruct (run (CallCollaboratorChange Samples.alice "room"
                   "collaborator_change"
                   [Samples.change_bob; Samples.change_bob]) Samples.world0)
    as [w'|] eqn:Hr; [|by vm_compute in Hr].
  exists w'. split; [reflexivity|].
  apply (run_keeps_log_ordered
           (CallCollaboratorChange Samples.alice "room" "collaborator_change"
              [Samples.change_bob; Samples.change_bob]) Samples.world0 w');
    [split; constructor | exact Hr].
Defined.

(** X18.  Stored snapshots are rewritten by [save_room] alone: connecting,
    disconnecting, collaborator changes, element changes and full syncs
    leave the snapshot of every existing room as it is. *)
Theorem only_save_room_rewrites_snapshots c w w' r els :
  (forall room_name elements, c <> CallSaveRoom room_name elements) ->
  run c w = Some w' ->
  rooms w !! r = Some els -> rooms w' !! r = Some els.
Proof.
  intros Hc H Hr.
  destruct c as [a b d p self | self code | self room_name eventtype changes
                  | self room_name eventtype elems kwargs
                  | self room_name eventtype elems kwargs
                  | room_name elements]; simpl in H.
  - destruct (connect a b d p self w) as [[self' w1]|] eqn:Hcon; [|done].
    injection H as <-. apply connect_tables in Hcon as (_ & _ & ->).
    by apply get_or_create_room_keeps.
  - by apply disconnect_tables in H as (_ & _ & ->).
  - unfold collaborator_change in H.
    destruct (last changes) as [last_change|]; [|done]. simpl in H.
    destruct (user_room_id self) as [uid|]; [|done]. simpl in H.
    destruct (mapM _ changes) as [records|]; [|done]. simpl in H.
    injection H as <-. unfold send_event.
    match goal with |- context [group_send ?g ?e ?w0] =>
      destruct (group_send_frame g e w0) as (-> & _)
    end.
    by destruct (bulk_create_records_rows records w)
      as (new & _ & _ & _ & _ & -> & _).
  - unfold elements_changed in H.
    destruct (user_room_id self) as [uid|]; [|done]. simpl in H.
    injection H as <-. unfold create_record, send_event. simpl.
    match goal with |- context [group_send ?g ?e ?w0] =>
      destruct (group_send_frame g e w0) as (-> & _)
    end. done.
  - unfold full_sync, elements_changed in H.
    destruct (user_room_id self) as [uid|]; [|done]. simpl in H.
    injection H as <-. unfold create_record, send_event. simpl.
    match goal with |- context [group_send ?g ?e ?w0] =>
      destruct (group_send_frame g e w0) as (-> & _)
    end. done.
  - by destruct (Hc room_name elements).
Qed.

(** A visitor connects to the room whose snapshot is [{A: 5}]. *)
Lemma only_save_room_rewrites_snapshots_witness :
  exists w',
    run (CallConnect true false false "pseudonym-visitor" Samples.visitor)
        Samples.world0 = Some w' /\
    rooms w' !! "room" = Some [Samples.A5].
Proof.
  destruct (run (CallConnect true false false "pseudonym-visitor"
                   Samples.visitor) Samples.world0)
    as [w'|] eqn:Hr; [|by vm_compute in Hr].
  exists w'. split; [reflexivity|].
  apply (only_save_room_rewrites_snapshots
           (CallConnect true false false "pseudonym-visitor" Samples.visitor)
           Samples.world0 w');
    [discriminate | exact Hr | reflexivity].
Defined.

(** X19.  When each handler is given the event type it is the handler of,
    every row of the log stays replayable: its type is one of
    [collaborator_change], [elements_changed], [full_sync], and a
    collaborator change holds a dict. *)
Theorem run_keeps_log_replayable c w w' :
  dispatched c -> Forall replayable (log_records w) ->
  run c w = Some w' -> Forall replayable (log_records w').
Proof.
  intros Hd Hall H.
  destruct (run_log c w w' H) as (new & -> & _ & _ & Hnew).
  apply Forall_app. split; [done | by apply Hnew].
Qed.

(** Bob's pointer update logged on an empty log. *)
Lemma run_keeps_log_replayable_witness :
  exists w',
    run (CallCollaboratorChange Samples.alice "room" "collaborator_change"
           [Samples.change_bob]) Samples.world0 = Some w' /\
    Forall replayable (log_records w').
Proof.
  destruct (run (CallCollaboratorChange Samples.alice "room"
                   "collaborator_change" [Samples.change_bob]) Samples.world0)
    as [w'|] eqn:Hr; [|by vm_compute in Hr].
  exists w'. split; [reflexivity|].
  apply (run_keeps_log_replayable
           (CallCollaboratorChange Samples.alice "room" "collaborator_change"
              [Samples.change_bob]) Samples.world0 w');
    [reflexivity | constructor | exact Hr].
Defined.

(** X20.  On a log whose keys ascend in insertion order -- every log the
    handlers produce -- the replay's id list is the room's rows in insertion
    order: sorting by id changes nothing. *)
Theorem replay_ids_in_insertion_order table room_name :
  StronglySorted Z.lt (rec_id <$> table) ->
  get_log_record_ids_for_room table room_name
  = rec_id <$>
      List.filter (fun r => String.eqb (rec_room_name r) room_name) table.
Proof.
  intros Hs. apply (StronglySorted_unique Z.le).
  - apply StronglySorted_merge_sort; apply _.
  - by apply room_ids_sorted.
  - apply merge_sort_Permutation.
Qed.

(** Three rows of two rooms. *)
Lemma replay_ids_in_insertion_order_witness :
  get_log_record_ids_for_room
    [ mkLogRecord 1 "room" "full_sync" "p" (ServerTime 3) (JList []);
      mkLogRecord 2 "other" "full_sync" "p" (ServerTime 2) (JList []);
      mkLogRecord 5 "room" "full_sync" "p" (ServerTime 1) (JList []) ] "room"
  = [1; 5].
Proof.
  apply (replay_ids_in_insertion_order
           [ mkLogRecord 1 "room" "full_sync" "p" (ServerTime 3) (JList []);
             mkLogRecord 2 "other" "full_sync" "p" (ServerTime 2) (JList []);
             mkLogRecord 5 "room" "full_sync" "p" (ServerTime 1) (JList []) ]
           "room").
  simpl. repeat (constructor; [|repeat (constructor; try lia)]). constructor.
Defined.

(** X21.  What [elements_changed] logs can be fetched back and is replayed
    last: on an ordered log, the new row is found under the next primary
    key with the room, event type, pseudonym and collection it was given,
    and the room's replay id list is the former one followed by that key. *)
Theorem elements_changed_logged_and_replayed_last
        self room_name eventtype elems kwargs w w' uid :
  log_ordered w -> user_room_id self = Some uid ->
  elements_changed self room_name eventtype elems kwargs w = Some w' ->
  get_log_record (log_records w') (last_record_id w + 1)
  = Some (mkLogRecord (last_record_id w + 1) room_name eventtype uid
            (ServerTime (clock w)) elems) /\
  get_log_record_ids_for_room (log_records w') room_name
  = get_log_record_ids_for_room (log_records w) room_name
    ++ [last_record_id w + 1].
Proof.
  intros [Hs Hall] Huid H. unfold elements_changed in H. rewrite Huid in H.
  simpl in H. injection H as <-.
  assert (Hlog : log_records
            (create_record
               (mkNewRecord room_name eventtype uid (ServerTime (clock w)) elems)
               (send_event self eventtype (<["elements" := elems]> kwargs) w))
          = log_records w ++
            [mkLogRecord (last_record_id w + 1) room_name eventtype uid
               (ServerTime (clock w)) elems]).
  { unfold create_record, send_event. simpl.
    match goal with |- context [group_send ?g ?e ?w0] =>
      destruct (group_send_frame g e w0) as (_ & -> & -> & _)
    end. done. }
  rewrite Hlog. split.
  - apply (get_log_record_appended (log_records w) (last_record_id w)
             (mkLogRecord (last_record_id w + 1) room_name eventtype uid
                (ServerTime (clock w)) elems)); [done | simpl; lia].
  - rewrite !room_ids_in_table_order; [| done |].
    + rewrite List.filter_app, fmap_app. simpl. by rewrite String.eqb_refl.
    + rewrite fmap_app. apply StronglySorted_app. split_and!; [|done|].
      * intros x1 x2 Hx1 Hx2. apply list_elem_of_fmap in Hx1 as (r & -> & Hr).
        apply list_elem_of_singleton in Hx2 as ->.
        pose proof (proj1 (Forall_forall _ _) Hall r Hr). simpl in *. lia.
      * simpl. repeat constructor.
Qed.

(** Alice submits a collection on an empty log. *)
Lemma elements_changed_logged_and_replayed_last_witness :
  exists w',
    elements_changed Samples.alice "room" "elements_changed" (JList [JInt 1])
      ∅ Samples.world0 = Some w' /\
    get_log_record_ids_for_room (log_records w') "room" = [1].
Proof.
  destruct (elements_changed Samples.alice "room" "elements_changed"
              (JList [JInt 1]) ∅ Samples.world0) as [w'|] eqn:Hr;
    [|by vm_compute in Hr].
  exists w'. split; [reflexivity|].
  destruct (elements_changed_logged_and_replayed_last Samples.alice "room"
              "elements_changed" (JList [JInt 1]) ∅ Samples.world0 w'
              "pseudonym-alice") as [_ Hids];
    [split; constructor | reflexivity | exact Hr | exact Hids].
Defined.

(** * Further properties of the replay *)

Section ReplayNames.

Import Replay.
Implicit Types (table : list LogRecord) (s : ReplayConsumer).
Implicit Types (names : gmap string string) (r : LogRecord).

(** More names do not change the messages of a covered record. *)
Lemma replay_messages_mono names names' r :
  names ⊆ names' -> names_cover names r ->
  replay_messages names' r = replay_messages names r /\ names_cover names' r.
Proof.
  intros Hsub Hcov. unfold replay_messages, names_cover in *.
  case_bool_decide as Hel; [split; [done | tauto]|].
  case_bool_decide as Hcc; [|split; [done | tauto]].
  destruct (Hcov Hel Hcc) as [[d Hd] [name Hname]].
  rewrite Hd, Hname, (lookup_weaken _ _ _ _ Hname Hsub).
  split; [done|]. intros _ _. split; eauto.
Qed.

(** One step that does not raise: the head id is fetched, the names only
    grow and cover the record, and the record's messages are sent. *)
Lemma send_next_event_step table s s1 :
  send_next_event table s = Some s1 ->
  exists pk r,
    log_record_ids s = pk :: log_record_ids s1 /\
    get_log_record table pk = Some r /\
    fetched s1 = fetched s ++ [pk] /\
    encountered_user_pseudonyms s ⊆ encountered_user_pseudonyms s1 /\
    names_cover (encountered_user_pseudonyms s1) r /\
    sent s1 = sent s ++ replay_messages (encountered_user_pseudonyms s1) r /\
    replay_room_name s1 = replay_room_name s /\
    (names_cover (encountered_user_pseudonyms s) r ->
     encountered_user_pseudonyms s1 = encountered_user_pseudonyms s).
Proof.
  unfold send_next_event. destruct (log_record_ids s) as [|pk rest]; [done|].
  destruct (get_log_record table pk) as [r|] eqn:Hget; [|done]. simpl.
  intros H. exists pk, r. revert H. unfold replay_messages, names_cover.
  destruct (bool_decide (rec_event_type r ∈ ["full_sync"; "elements_changed"]))
    eqn:Hel.
  { apply bool_decide_eq_true in Hel. intros [= <-]. simpl.
    split_and!; try done; tauto. }
  apply bool_decide_eq_false in Hel.
  destruct (bool_decide (rec_event_type r = "collaborator_change")) eqn:Hcc.
  2:{ apply bool_decide_eq_false in Hcc. intros [= <-]. simpl.
      rewrite app_nil_r. split_and!; try done; tauto. }
  apply bool_decide_eq_true in Hcc.
  destruct (rec_content r) as [| | | | |d] eqn:Hd; try done.
  unfold display_name. simpl.
  destruct (encountered_user_pseudonyms s !! rec_user_pseudonym r)
    as [name|] eqn:Hname; simpl.
  - intros [= <-]. simpl. rewrite Hname.
    split_and!; try done. intros _ _. eauto.
  - intros [= <-]. simpl. rewrite lookup_insert_eq.
    split_and!; try done.
    + by apply insert_subseteq.
    + intros _ _. eauto.
    + intros Hcov. destruct (Hcov Hel Hcc) as [_ [? ?]]. congruence.
Qed.

(** A step on an existing, covered record does not raise. *)
Lemma send_next_event_covered table s pk rest r :
  log_record_ids s = pk :: rest -> get_log_record table pk = Some r ->
  names_cover (encountered_user_pseudonyms s) r ->
  is_Some (send_next_event table s).
Proof.
  intros Hids Hget Hcov. unfold send_next_event. rewrite Hids, Hget. simpl.
  case_bool_decide as Hel; [eauto|].
  case_bool_decide as Hcc; [|eauto].
  destruct (Hcov Hel Hcc) as [[d ->] _].
  destruct (display_name _ _). eauto.
Qed.

(** A pass that reaches its end, described by the names it ends with. *)
Lemma wait_then_send_finished table fuel : forall s s',
  wait_then_send fuel table s = Finished s' ->
  (length (log_record_ids s) < fuel)%nat /\
  encountered_user_pseudonyms s ⊆ encountered_user_pseudonyms s' /\
  Forall (fun pk => exists r, get_log_record table pk = Some r /\
                      names_cover (encountered_user_pseudonyms s') r)
         (log_record_ids s) /\
  fetched s' = fetched s ++ log_record_ids s /\
  sent s' = sent s
            ++ replay_pass table (encountered_user_pseudonyms s')
                 (log_record_ids s)
            ++ [{[ "eventtype" := JStr "pause_replay" ]}] /\
  replay_room_name s' = replay_room_name s.
Proof.
  induction fuel as [|fuel IH]; intros s s' H; [done|]. simpl in H.
  destruct (log_record_ids s) as [|pk0 rest0] eqn:Hids.
  - injection H as <-. simpl. rewrite app_nil_r.
    split_and!; try done; lia.
  - destruct (send_next_event table s) as [s1|] eqn:Hstep; [|done].
    apply send_next_event_step in Hstep
      as (pk & r & Hids1 & Hget & Hf & Hsub & Hcov & Hsent & Hroom & _).
    rewrite Hids in Hids1. injection Hids1 as <- ->.
    destruct (IH s1 s' H) as (Hlen & Hsub' & Hall & Hf' & Hs' & Hroom').
    destruct (replay_messages_mono _ _ r Hsub' Hcov) as [Hmsg Hcov'].
    split_and!.
    + simpl. lia.
    + by etrans.
    + constructor; eauto.
    + by rewrite Hf', Hf, <- app_assoc.
    + rewrite Hs', Hsent. unfold replay_pass. simpl. rewrite Hget. simpl.
      by rewrite Hmsg, <- !app_assoc.
    + congruence.
Qed.

(** A pass over existing, covered records reaches its end without drawing
    a name. *)
Lemma wait_then_send_covered table ids : forall s fuel,
  log_record_ids s = ids ->
  Forall (fun pk => exists r, get_log_record table pk = Some r /\
                      names_cover (encountered_user_pseudonyms s) r) ids ->
  (length ids < fuel)%nat ->
  exists s',
    wait_then_send fuel table s = Finished s' /\
    encountered_user_pseudonyms s' = encountered_user_pseudonyms s /\
    sent s' = sent s
              ++ replay_pass table (encountered_user_pseudonyms s) ids
              ++ [{[ "eventtype" := JStr "pause_replay" ]}].
Proof.
  induction ids as [|pk rest IH]; intros s fuel Hids Hall Hfuel.
  - destruct fuel as [|fuel]; [simpl in Hfuel; lia|]. simpl. rewrite Hids.
    eexists. split; [reflexivity|]. by split.
  - destruct fuel as [|fuel]; [simpl in Hfuel; lia|].
    apply Forall_cons in Hall as [(r & Hget & Hcov) Hall].
    destruct (send_next_event_covered table s pk rest r Hids Hget Hcov)
      as [s1 Hstep].
    destruct (send_next_event_step _ _ _ Hstep)
      as (pk' & r' & Hids1 & Hget' & _ & _ & _ & Hsent & _ & Hsame).
    rewrite Hids in Hids1. injection Hids1 as <- Hrest.
    rewrite Hget in Hget'. injection Hget' as <-.
    specialize (Hsame Hcov).
    destruct (IH s1 fuel) as (s' & Hrun & Hnames & Hs');
      [done | by rewrite Hsame | simpl in Hfuel; lia |].
    exists s'. simpl. rewrite Hids, Hstep. split; [done|].
    split; [congruence|].
    rewrite Hs', Hsent, Hsame. unfold replay_pass. simpl. rewrite Hget. simpl.
    by rewrite <- !app_assoc.
Qed.

(** Each step takes one id off the list. *)
Lemma wait_then_send_not_scheduled table fuel : forall s s',
  (length (log_record_ids s) < fuel)%nat ->
  wait_then_send fuel table s <> Scheduled s'.
Proof.
  induction fuel as [|fuel IH]; intros s s' Hlen; [lia|]. simpl.
  destruct (log_record_ids s) as [|pk rest] eqn:Hids; [done|].
  destruct (send_next_event table s) as [s1|] eqn:Hstep; [|done].
  apply IH. apply send_next_event_step in Hstep as (pk' & r & Hids1 & _).
  rewrite Hids in Hids1. injection Hids1 as _ ->. simpl in Hlen. lia.
Qed.

End ReplayNames.

(** X22.  The playback loop cannot go on for ever: with more fuel than
    pending ids, a pass either raises or reaches its final [pause_replay],
    and then it has fetched every pending id, in order. *)
Theorem replay_pass_ends table fuel s :
  (length (log_record_ids s) < fuel)%nat ->
  Replay.wait_then_send fuel table s = Raised \/
  exists s',
    Replay.wait_then_send fuel table s = Finished s' /\
    fetched s' = fetched s ++ log_record_ids s.
Proof.
  intros Hlen. destruct (Replay.wait_then_send fuel table s) as [s'| |s'] eqn:H.
  - right. exists s'. split; [done|].
    by apply wait_then_send_finished in H as (_ & _ & _ & Hf & _).
  - by left.
  - by destruct (wait_then_send_not_scheduled table fuel s s' Hlen).
Qed.

(** The loop over the sample log, with a missing key 9 at the end. *)
Lemma replay_pass_ends_witness :
  Replay.wait_then_send 3 Samples.log123
    (mkReplayConsumer "room" [1; 9] ∅ (fun _ => "Jane Doe") 0 [] [])
  = Raised \/
  exists s',
    Replay.wait_then_send 3 Samples.log123
      (mkReplayConsumer "room" [1; 9] ∅ (fun _ => "Jane Doe") 0 [] [])
    = Finished s' /\
    fetched s' = [] ++ [1; 9].
Proof.
  apply (replay_pass_ends Samples.log123 3
           (mkReplayConsumer "room" [1; 9] ∅ (fun _ => "Jane Doe") 0 [] [])).
  simpl. lia.
Defined.

(** X23.  Pseudonym stability: in a pass that reaches its end, every
    replayed collaborator change carries as [username] the display name the
    session holds for its [userRoomId] at the end, and names the session
    held before the pass are kept; so one pseudonym is shown under one name
    throughout. *)
Theorem replay_display_names_stable table fuel s s' :
  Replay.wait_then_send fuel table s = Finished s' ->
  encountered_user_pseudonyms s ⊆ encountered_user_pseudonyms s' /\
  exists msgs,
    sent s' = sent s ++ msgs /\
    forall msg d, msg ∈ msgs -> msg !! "changes" = Some (JList [JDict d]) ->
      exists p name,
        d !! "userRoomId" = Some (JStr p) /\
        d !! "username" = Some (JStr name) /\
        encountered_user_pseudonyms s' !! p = Some name.
Proof.
  intros H. apply wait_then_send_finished in H
    as (_ & Hsub & _ & _ & Hsent & _).
  split; [done|]. eexists. split; [exact Hsent|].
  intros msg d Hin Hchanges.
  apply elem_of_app in Hin as [Hin | Hin].
  2:{ apply list_elem_of_singleton in Hin as ->.
      by rewrite lookup_singleton_ne in Hchanges. }
  unfold replay_pass in Hin. apply list_elem_of_In, in_flat_map in Hin
    as (pk & _ & Hin).
  destruct (get_log_record table pk) as [r|]; simpl in Hin; [|done].
  unfold replay_messages in Hin.
  case_bool_decide.
  { destruct Hin as [<- | []].
    rewrite lookup_insert_ne, lookup_singleton_ne in Hchanges; done. }
  case_bool_decide; [|done].
  destruct (rec_content r) as [| | | | |content]; try done.
  destruct (encountered_user_pseudonyms s' !! rec_user_pseudonym r)
    as [name|] eqn:Hname; [|done].
  destruct Hin as [<- | []].
  rewrite lookup_insert_ne, lookup_singleton_eq in Hchanges by done.
  injection Hchanges as <-.
  exists (rec_user_pseudonym r), name. split_and!; [|  | done].
  - apply lookup_insert_eq.
  - rewrite lookup_insert_ne by done. apply lookup_insert_eq.
Qed.

(** The sample log replayed from the start. *)
Lemma replay_display_names_stable_witness :
  exists s' msgs,
    Replay.wait_then_send 4 Samples.log123
      (Replay.init_replay Samples.log123 Samples.observer) = Finished s' /\
    sent s' = [{[ "eventtype" := JStr "reset_scene" ]}] ++ msgs /\
    encountered_user_pseudonyms s' !! "pseudonym-bob" = Some "Jane Doe".
Proof.
  destruct (Replay.wait_then_send 4 Samples.log123
              (Replay.init_replay Samples.log123 Samples.observer))
    as [s'| |s'] eqn:Hrun; [|by vm_compute in Hrun|by vm_compute in Hrun].
  destruct (replay_display_names_stable _ _ _ _ Hrun)
    as (_ & msgs & Hsent & _).
  exists s', msgs. split; [reflexivity|]. split; [exact Hsent|].
  vm_compute in Hrun. injection Hrun as <-. reflexivity.
Defined.

(** X24.  Replaying again in the same session repeats the replay: when a
    pass ([init_replay], then the loop) has reached its end, a second pass
    over the same log ends too, sends the same messages between
    [reset_scene] and [pause_replay], display names included, and draws no
    new name. *)
Theorem replay_again_repeats table fuel s s1 :
  Replay.wait_then_send fuel table (Replay.init_replay table s) = Finished s1 ->
  exists msgs s2,
    sent s1 = sent s ++ [{[ "eventtype" := JStr "reset_scene" ]}] ++ msgs
                     ++ [{[ "eventtype" := JStr "pause_replay" ]}] /\
    Replay.wait_then_send fuel table (Replay.init_replay table s1)
    = Finished s2 /\
    sent s2 = sent s1 ++ [{[ "eventtype" := JStr "reset_scene" ]}] ++ msgs
                      ++ [{[ "eventtype" := JStr "pause_replay" ]}] /\
    encountered_user_pseudonyms s2 = encountered_user_pseudonyms s1.
Proof.
  intros H. apply wait_then_send_finished in H
    as (Hlen & _ & Hall & _ & Hsent & Hroom).
  simpl in Hlen, Hall, Hsent, Hroom.
  exists (replay_pass table (encountered_user_pseudonyms s1)
            (get_log_record_ids_for_room table (replay_room_name s))).
  destruct (wait_then_send_covered table
              (get_log_record_ids_for_room table (replay_room_name s))
              (Replay.init_replay table s1) fuel)
    as (s2 & Hrun & Hnames & Hsent2); [by simpl; rewrite Hroom | done | done |].
  exists s2. simpl in Hnames, Hsent2. split_and!; try done.
  - by rewrite Hsent, <- !app_assoc.
  - by rewrite Hsent2, <- !app_assoc.
Qed.

(** The sample log replayed twice. *)
Lemma replay_again_repeats_witness :
  exists s1 msgs s2,
    Replay.wait_then_send 4 Samples.log123
      (Replay.init_replay Samples.log123 Samples.observer) = Finished s1 /\
    Replay.wait_then_send 4 Samples.log123
      (Replay.init_replay Samples.log123 s1) = Finished s2 /\
    sent s2 = sent s1 ++ [{[ "eventtype" := JStr "reset_scene" ]}] ++ msgs
                      ++ [{[ "eventtype" := JStr "pause_replay" ]}].
Proof.
  destruct (Replay.wait_then_send 4 Samples.log123
              (Replay.init_replay Samples.log123 Samples.observer))
    as [s1| |s1] eqn:Hrun; [|by vm_compute in Hrun|by vm_compute in Hrun].
  destruct (replay_again_repeats _ _ _ _ Hrun) as (msgs & s2 & _ & H2 & Hs & _).
  exists s1, msgs, s2. split; [reflexivity|]. split; [exact H2 | exact Hs].
Defined.

(** * Room provisioning *)

(** X25.  Provisioning rooms through [upsert_rooms] never overwrites a
    snapshot: a room that has a row keeps its elements, a listed room
    without a row gets one with the empty default, and rooms that are not
    listed are left alone. *)
Theorem upsert_rooms_lookup room_names rooms r :
  upsert_rooms room_names rooms !! r =
  match rooms !! r with
  | Some els => Some els
  | None => if bool_decide (r ∈ room_names) then Some default_elements else None
  end.
Proof.
  unfold upsert_rooms. revert rooms.
  induction room_names as [|n names IH]; intros rooms; simpl.
  - by destruct (rooms !! r).
  - rewrite IH. unfold get_or_create_room.
    destruct (rooms !! n) as [old|] eqn:Hn; simpl.
    + destruct (rooms !! r) as [els|] eqn:Hr; [done|].
      assert (r <> n) by congruence.
      destruct (bool_decide (r ∈ names)) eqn:Hb.
      * apply bool_decide_eq_true in Hb.
        rewrite bool_decide_eq_true_2; [done | by right].
      * apply bool_decide_eq_false in Hb.
        rewrite bool_decide_eq_false_2; [done|].
        intros Hin. apply elem_of_cons in Hin as [? | ?]; done.
    + destruct (decide (r = n)) as [->|Hne].
      * rewrite lookup_insert_eq, Hn.
        rewrite bool_decide_eq_true_2; [done | by left].
      * rewrite lookup_insert_ne by done.
        destruct (rooms !! r) as [els|]; [done|].
        destruct (bool_decide (r ∈ names)) eqn:Hb.
        -- apply bool_decide_eq_true in Hb.
           rewrite bool_decide_eq_true_2; [done | by right].
        -- apply bool_decide_eq_false in Hb.
           rewrite bool_decide_eq_false_2; [done|].
           intros Hin. apply elem_of_cons in Hin as [? | ?]; done.
Qed.
